(** * browser_use.drivers.socket: a socket.io driver for remote browsers

    A shallow embedding of [src/browser_use/drivers/socket.py] and the
    properties of its request correlator ([SocketRequestManager]), its
    session setup ([SocketBrowser.setup]) and its remote object handles
    ([SocketContext], [SocketPage], [SocketFrame], [SocketElementHandle],
    [SocketLocator]).

    Layout: Part I holds the definitions (Python values, base64, the
    regular expression of the screenshot decoder, the effect monad of the
    handles, the classes of the module); Part II holds the lemmas. *)

From stdpp Require Import base option gmap strings list pretty.
From Stdlib Require Import ZArith NArith Ascii Lia.
From Stdlib.Strings Require Import Byte.

#[local] Set Warnings "-register-all".
#[local] Open Scope string_scope.

(* ===================================================================== *)
(** * Part I: definitions *)
(* ===================================================================== *)

(** ** Python values

    The values that travel through the driver: what socket.io decodes
    from a message (None, booleans, integers, strings, lists, objects,
    binary attachments) and what the handles build themselves (tuples for
    [*args], dicts for payloads and [**kwargs]).  A [str] is a sequence
    of characters with codes below 256; dicts are keyed by [str], as all
    dicts of this module are. *)
Module Py.

Inductive pyval : Type :=
  | PNone
  | PBool (b : bool)
  | PInt (z : Z)
  | PStr (s : string)
  | PBytes (bs : list byte)
  | PByteArray (bs : list byte)
  | PList (l : list pyval)
  | PTuple (l : list pyval)
  | PDict (d : gmap string pyval).

Abbreviation dict := (gmap string pyval).

(** Exceptions, as far as the module raises or catches them.
    [BinasciiError] is [binascii.Error], a subclass of [ValueError]. *)
Inductive exn : Type :=
  | TypeError (msg : string)
  | ValueError (msg : string)
  | BinasciiError (msg : string)
  | KeyError (key : string)
  | InvalidStateError
  | OtherError (msg : string).

(** [isinstance(e, TypeError)], the test of [except TypeError]. *)
Definition is_TypeError (e : exn) : bool :=
  match e with TypeError _ => true | _ => false end.

(** [isinstance(e, ValueError)]. *)
Definition is_ValueError (e : exn) : bool :=
  match e with ValueError _ | BinasciiError _ => true | _ => false end.

(** The outcome of a fallible evaluation. *)
Inductive result (A : Type) : Type :=
  | Ok (a : A)
  | Err (e : exn).
Arguments Ok {A} a.
Arguments Err {A} e.

(** [bool(v)]: Python truthiness. *)
Definition truthy (v : pyval) : bool :=
  match v with
  | PNone => false
  | PBool b => b
  | PInt z => negb (z =? 0)%Z
  | PStr s => negb (String.eqb s "")
  | PBytes bs | PByteArray bs => negb (Nat.eqb (length bs) 0)
  | PList l | PTuple l => negb (Nat.eqb (length l) 0)
  | PDict d => negb (bool_decide (d = ∅))
  end.

(** Whether [hash(v)] succeeds: lists, dicts and bytearrays are
    unhashable, a tuple is hashable when its items are. *)
Fixpoint hashable (v : pyval) : bool :=
  match v with
  | PNone | PBool _ | PInt _ | PStr _ | PBytes _ => true
  | PByteArray _ | PList _ | PDict _ => false
  | PTuple l => forallb hashable l
  end.

(** The type that the [TypeError] of [hash(v)] names (CPython up to
    3.13: [unhashable type: 'list']): that of the first unhashable item,
    depth first; [None] when [v] is hashable. *)
Fixpoint unhashable_type (v : pyval) : option string :=
  match v with
  | PNone | PBool _ | PInt _ | PStr _ | PBytes _ => None
  | PByteArray _ => Some "bytearray"
  | PList _ => Some "list"
  | PDict _ => Some "dict"
  | PTuple l => head (omap unhashable_type l)
  end.

Definition unhashable_message (v : pyval) : string :=
  String.append "unhashable type: '"
    (String.append (default "" (unhashable_type v)) "'").

(** [d.get(k)]: the value under [k], [None] when absent. *)
Definition dict_get (k : string) (d : dict) : pyval :=
  default PNone (d !! k).

(** [d[k]] on a dict: [KeyError] when absent. *)
Definition dict_item (k : string) (d : dict) : result pyval :=
  match d !! k with
  | Some v => Ok v
  | None => Err (KeyError k)
  end.

(** [v[k]] for a string key [k] on any value: only dicts can be
    subscripted by a string. *)
Definition subscript (v : pyval) (k : string) : result pyval :=
  match v with
  | PDict d => dict_item k d
  | PNone | PBool _ | PInt _ => Err (TypeError "object is not subscriptable")
  | PStr _ | PBytes _ | PByteArray _ | PList _ | PTuple _ =>
      Err (TypeError "indices must be integers")
  end.

(** The items [for x in v] yields.  Iterating a dict yields its keys,
    each once; Python yields them in the order of insertion, which a
    finite map does not record, so for a dict the list below stands for
    the keys up to their order. *)
Definition iterate (v : pyval) : result (list pyval) :=
  match v with
  | PList l | PTuple l => Ok l
  | PStr s =>
      Ok (map (λ c, PStr (String c EmptyString))
              (String.list_ascii_of_string s))
  | PBytes bs | PByteArray bs =>
      Ok (map (λ b, PInt (Z.of_N (Byte.to_N b))) bs)
  | PDict d => Ok (map (λ kv, PStr kv.1) (map_to_list d))
  | PNone | PBool _ | PInt _ => Err (TypeError "object is not iterable")
  end.

(** [{**a, **b}]: the items of [b] win. *)
Definition dict_merge (a b : dict) : dict := b ∪ a.

(** An optional string attribute ([str | None]) read as a value. *)
Definition of_opt (o : option string) : pyval :=
  match o with
  | Some s => PStr s
  | None => PNone
  end.

(** [a or b] on optional strings. *)
Definition opt_or (a b : option string) : option string :=
  if truthy (of_opt a) then a else b.

End Py.
Import Py.

(** ** SocketRequestManager: request/response correlation over socket.io *)
Module SocketRequestManager.

(** An [asyncio.Future] created by [emit]: pending, done with the result
    [set_result] gave it, or cancelled, which is what becomes of the
    future a caller awaits when the caller is cancelled ([task.cancel()],
    the timeout of [asyncio.wait_for]). *)
Inductive future : Type :=
  | Pending
  | Done (v : pyval)
  | Cancelled.

(** The instance: [_browser_client_id] is the routing target,
    [_futures] maps request ids to futures (by their index in the
    store of futures below). *)
Record t : Type := Build {
  _browser_client_id : option string;
  _futures : gmap string nat
}.

(** The manager together with what it shares with the event loop and the
    transport: the futures it created, and the messages handed to
    [sio.emit], oldest first. *)
Record world : Type := World {
  self : t;
  heap : list future;
  wire : list (string * pyval)
}.

(** [SocketRequestManager(sio, browser_client_id)]. *)
Definition init (browser_client_id : option string) : world :=
  {| self := {| _browser_client_id := browser_client_id; _futures := ∅ |};
     heap := [];
     wire := [] |}.

(** [emit] up to [await fut].  The request id is [str(uuid.uuid4())],
    chosen by the environment and passed in as [req_id]; the future
    created is returned by its index. *)
Definition emit_send (w : world) (req_id event : string) (data : dict)
    : world * nat :=
  let fut := length (heap w) in
  let futures := <[req_id := fut]> (_futures (self w)) in
  let emit_data := dict_merge data {[ "req_id" := PStr req_id ]} in
  let target := _browser_client_id (self w) in
  let sent :=
    if truthy (of_opt target) then
      let emit_data :=
        <["target_browser_client_id" := of_opt target]> emit_data in
      ("browser_command",
       PDict (<["browser_client_id" := of_opt target]>
                (<["command" := PStr event]>
                   (<["data" := PDict emit_data]> ∅))))
    else (event, PDict emit_data) in
  ({| self := {| _browser_client_id := target; _futures := futures |};
      heap := heap w ++ [Pending];
      wire := wire w ++ [sent] |},
   fut).

(** [await fut]: the result the caller receives once the future is
    done; [None] while the caller is still suspended, and when the future
    was cancelled (the caller then gets [CancelledError], see
    [emit_cancelled], and no result). *)
Definition emit_result (w : world) (fut : nat) : option pyval :=
  match heap w !! fut with
  | Some (Done v) => Some v
  | _ => None
  end.

(** [await fut] raises [CancelledError]: the future was cancelled. *)
Definition emit_cancelled (w : world) (fut : nat) : bool :=
  match heap w !! fut with
  | Some Cancelled => true
  | _ => false
  end.

(** [v == self._browser_client_id]. *)
Definition eq_target (v : pyval) (target : option string) : bool :=
  match target, v with
  | None, PNone => true
  | Some t, PStr s => String.eqb s t
  | _, _ => false
  end.

(** [req_id in self._futures], and the entry found: the test hashes
    [req_id] first, which raises on a list, a dict or a bytearray; the
    keys are all strings, so that only a string can be found. *)
Definition find_future (futures : gmap string nat) (req_id : pyval)
    : result (option (string * nat)) :=
  if hashable req_id then
    match req_id with
    | PStr r => Ok ((λ fut, (r, fut)) <$> futures !! r)
    | _ => Ok None
    end
  else Err (TypeError (unhashable_message req_id)).

(** [fut.set_result(v)]: [InvalidStateError] unless the future is
    pending. *)
Definition set_result (h : list future) (fut : nat) (v : pyval)
    : list future * option exn :=
  match h !! fut with
  | Some Pending => (<[fut := Done v]> h, None)
  | _ => (h, Some InvalidStateError)
  end.

(** The handler of the inbound 'response' event: the world it leaves
    and the exception it raises, if any. *)
Definition _on_response (w : world) (data : dict) : world * option exn :=
  if negb (eq_target (dict_get "browser_client_id" data)
                     (_browser_client_id (self w)))
  then (w, None)
  else
    let req_id := dict_get "req_id" data in
    if negb (truthy req_id) then (w, None)
    else
      match find_future (_futures (self w)) req_id with
      | Err e => (w, Some e)
      | Ok None => (w, None)
      | Ok (Some (r, fut)) =>
          let futures := delete r (_futures (self w)) in
          let '(h, e) := set_result (heap w) fut (dict_get "result" data) in
          ({| self := {| _browser_client_id := _browser_client_id (self w);
                         _futures := futures |};
              heap := h;
              wire := wire w |}, e)
      end.

(** What happens to a manager through its two entry points: a caller
    enters [emit] (with the id uuid4 drew), or the transport delivers a
    'response' message.  A list of these is a run in which every caller
    keeps waiting; [action] below adds the cancellation of callers. *)
Inductive event : Type :=
  | EvCall (req_id verb : string) (data : dict)
  | EvResponse (data : dict).

(** One event.  An exception of the handler goes to the transport's
    dispatcher, the world stays as the handler left it. *)
Definition step (w : world) (ev : event) : world :=
  match ev with
  | EvCall r verb data => (emit_send w r verb data).1
  | EvResponse data => (_on_response w data).1
  end.

Definition run (w : world) (tr : list event) : world :=
  foldl step w tr.

(** The number of calls of a trace: the index of the future the next
    call creates, from [init]. *)
Fixpoint issued (tr : list event) : nat :=
  match tr with
  | [] => 0
  | EvCall _ _ _ :: tr => S (issued tr)
  | EvResponse _ :: tr => issued tr
  end.

(** The request ids the calls of a trace were given. *)
Fixpoint call_ids (tr : list event) : list string :=
  match tr with
  | [] => []
  | EvCall r _ _ :: tr => r :: call_ids tr
  | EvResponse _ :: tr => call_ids tr
  end.

(** A 'response' message for this manager that carries request id [r]:
    its 'browser_client_id' equals the target and its 'req_id' is [r]. *)
Definition answers (target : option string) (r : string) (data : dict)
    : bool :=
  eq_target (dict_get "browser_client_id" data) target
  && match dict_get "req_id" data with
     | PStr s => String.eqb s r
     | _ => false
     end.

(** The 'result' field of the first message of a trace that answers
    request [r]. *)
Fixpoint first_answer (target : option string) (r : string)
    (tr : list event) : option pyval :=
  match tr with
  | [] => None
  | EvCall _ _ _ :: tr => first_answer target r tr
  | EvResponse data :: tr =>
      if answers target r data then Some (dict_get "result" data)
      else first_answer target r tr
  end.

(** The outbound message in the words of the wire contract: under
    'browser_command' with [{browser_client_id, command, data}], where
    [data] is the caller's payload with the request id merged in, when a
    routing target is configured; under the verb with the payload and
    the request id otherwise. *)
Definition wire_contract (target : option string) (req_id verb : string)
    (data : dict) : string * pyval :=
  let payload := <["req_id" := PStr req_id]> data in
  if truthy (of_opt target) then
    ("browser_command",
     PDict (<["browser_client_id" := of_opt target]>
              (<["command" := PStr verb]>
                 (<["data" := PDict payload]> ∅))))
  else (verb, PDict payload).

(** The pending-call invariant of the runs in which no caller is
    cancelled: every registered future is pending, and no future is
    registered under two ids. *)
Definition inv (w : world) : Prop :=
  (∀ r f, _futures (self w) !! r = Some f → heap w !! f = Some Pending)
  ∧ (∀ r1 r2 f, _futures (self w) !! r1 = Some f →
                _futures (self w) !! r2 = Some f → r1 = r2).

(** [fut.cancel()] on the future a caller awaits in [emit]: only a
    pending future changes its state.  [emit] has no handler for the
    [CancelledError] its caller gets ([await fut] is its last statement,
    outside any [try]), so the entry of the call stays in [_futures]. *)
Definition cancel (w : world) (fut : nat) : world :=
  match heap w !! fut with
  | Some Pending =>
      {| self := self w;
         heap := <[fut := Cancelled]> (heap w);
         wire := wire w |}
  | _ => w
  end.

(** What the event loop does around a manager: an event of the manager
    itself, or the cancellation of the caller that awaits future [fut]. *)
Inductive action : Type :=
  | Ev (ev : event)
  | Cancel (fut : nat).

Definition act (w : world) (a : action) : world :=
  match a with
  | Ev ev => step w ev
  | Cancel fut => cancel w fut
  end.

Definition play (w : world) (acts : list action) : world :=
  foldl act w acts.

(** The events of the manager among the actions of a run. *)
Definition events (acts : list action) : list event :=
  omap (λ a, match a with Ev ev => Some ev | Cancel _ => None end) acts.

(** The message whose 'req_id' is registered, with the entry: a message
    that matches a pending call. *)
Definition matching_call (w : world) (data : dict) : option (string * nat) :=
  if eq_target (dict_get "browser_client_id" data)
               (_browser_client_id (self w))
  then
    match dict_get "req_id" data with
    | PStr r => (λ fut, (r, fut)) <$> _futures (self w) !! r
    | _ => None
    end
  else None.

(** The handler on one message, in the words of the specification: a
    message that matches a pending call removes the entry and resolves
    the call with the message's result; any other message changes no
    state; no error is raised either way. *)
Definition resolution_contract (w : world) (data : dict) : Prop :=
  (_on_response w data).2 = None
  ∧ match matching_call w data with
    | Some (r, fut) =>
        _futures (self (_on_response w data).1)
        = delete r (_futures (self w))
        ∧ emit_result (_on_response w data).1 fut
          = Some (dict_get "result" data)
    | None => (_on_response w data).1 = w
    end.

End SocketRequestManager.

(** ** base64.b64decode

    [SocketPage.screenshot] decodes with [base64.b64decode] of the Python
    standard library: CPython's [binascii.a2b_base64] in its default, not
    strict, mode, after [str.encode('ascii')]. *)
Module Base64.

#[local] Open Scope N_scope.

Definition BASE64_PAD : N := 61.

(** The decoding table: the index of a character in the base64
    alphabet, 255 (the table's -1 in an unsigned char) for the others. *)
Definition table_a2b_base64 (c : N) : N :=
  if (65 <=? c) && (c <=? 90) then c - 65
  else if (97 <=? c) && (c <=? 122) then c - 71
  else if (48 <=? c) && (c <=? 57) then c + 4
  else if c =? 43 then 62
  else if c =? 47 then 63
  else 255.

(** A store into an [unsigned char]. *)
Definition to_uchar (n : N) : byte :=
  default x00 (Byte.of_N (n mod 256)).

(** The loop of [a2b_base64] over the remaining input, with its
    variables [quad_pos], [leftchar] and [pads], and the bytes written
    so far.  (The first error message also counts the characters read;
    the count is left out here.) *)
Fixpoint a2b_loop (ascii_data : list byte) (quad_pos : nat) (leftchar : N)
    (pads : nat) (bin_data : list byte) : result (list byte) :=
  match ascii_data with
  | [] =>
      match quad_pos with
      | 0%nat => Ok bin_data
      | 1%nat =>
          Err (BinasciiError
                 "Invalid base64-encoded string: number of data characters cannot be 1 more than a multiple of 4")
      | _ => Err (BinasciiError "Incorrect padding")
      end
  | b :: rest =>
      let this_ch := Byte.to_N b in
      if this_ch =? BASE64_PAD then
        if (2 <=? quad_pos)%nat then
          if (4 <=? quad_pos + S pads)%nat then Ok bin_data
          else a2b_loop rest quad_pos leftchar (S pads) bin_data
        else a2b_loop rest quad_pos leftchar pads bin_data
      else
        let this_ch := table_a2b_base64 this_ch in
        if 64 <=? this_ch then a2b_loop rest quad_pos leftchar pads bin_data
        else
          match quad_pos with
          | 0%nat => a2b_loop rest 1 this_ch 0 bin_data
          | 1%nat =>
              a2b_loop rest 2 (N.land this_ch 15) 0
                (bin_data ++ [to_uchar (N.lor (N.shiftl leftchar 2)
                                              (N.shiftr this_ch 4))])
          | 2%nat =>
              a2b_loop rest 3 (N.land this_ch 3) 0
                (bin_data ++ [to_uchar (N.lor (N.shiftl leftchar 4)
                                              (N.shiftr this_ch 2))])
          | _ =>
              a2b_loop rest 0 0 0
                (bin_data ++ [to_uchar (N.lor (N.shiftl leftchar 6)
                                              this_ch)])
          end
  end.

Definition a2b_base64 (data : list byte) : result (list byte) :=
  a2b_loop data 0 0 0 [].

(** [base64.b64decode(s)] for a [str]. *)
Definition b64decode (s : string) : result (list byte) :=
  let cs := String.list_ascii_of_string s in
  if forallb (λ c, N_of_ascii c <? 128) cs
  then a2b_base64 (map byte_of_ascii cs)
  else Err (ValueError "string argument should contain only ASCII characters").

(** The encoding table of RFC 4648. *)
Definition table_b2a_base64 (n : N) : byte :=
  to_uchar (if n <? 26 then n + 65
            else if n <? 52 then n + 71
            else if n <? 62 then n - 4
            else if n =? 62 then 43
            else 47).

(** The four 6-bit groups of three bytes. *)
Definition sextet0 (n0 : N) : N := N.shiftr n0 2.
Definition sextet1 (n0 n1 : N) : N :=
  N.lor (N.shiftl (N.land n0 3) 4) (N.shiftr n1 4).
Definition sextet2 (n1 n2 : N) : N :=
  N.lor (N.shiftl (N.land n1 15) 2) (N.shiftr n2 6).
Definition sextet3 (n2 : N) : N := N.land n2 63.

(** The standard base64 encoding (RFC 4648, section 4;
    [base64.b64encode]): what a well-formed payload is the image of.
    Not called by the driver; the decoder is stated against it. *)
Fixpoint b64encode (bs : list byte) : list byte :=
  let enc := table_b2a_base64 in
  let pad := to_uchar BASE64_PAD in
  match bs with
  | [] => []
  | [b0] =>
      let n0 := Byte.to_N b0 in
      [enc (sextet0 n0); enc (sextet1 n0 0); pad; pad]
  | [b0; b1] =>
      let n0 := Byte.to_N b0 in
      let n1 := Byte.to_N b1 in
      [enc (sextet0 n0); enc (sextet1 n0 n1); enc (sextet2 n1 0); pad]
  | b0 :: b1 :: b2 :: rest =>
      let n0 := Byte.to_N b0 in
      let n1 := Byte.to_N b1 in
      let n2 := Byte.to_N b2 in
      enc (sextet0 n0) :: enc (sextet1 n0 n1) :: enc (sextet2 n1 n2)
      :: enc (sextet3 n2) :: b64encode rest
  end.

(** The encoding as a [str]. *)
Definition b64encode_str (bs : list byte) : string :=
  String.string_of_list_ascii (map ascii_of_byte (b64encode bs)).

(** Every byte, in order. *)
Definition all_bytes : list byte :=
  omap Byte.of_N (N.of_nat <$> seq 0 256).

End Base64.

(** ** Regular expressions

    The fragment of [re] that the screenshot decoder uses: a sequence of
    single characters, greedy repetitions of a character class, and a
    captured greedy repetition, matched from the start of the string as
    [re.match] does, backtracking from the longest repetition down. *)
Module Re.

Inductive cclass : Type :=
  | Lit (c : ascii)       (* the character itself *)
  | NotLit (c : ascii)    (* any character but this one *)
  | Dot.                  (* any character but a newline *)

Definition newline : ascii := ascii_of_nat 10.

Definition cmatch (cl : cclass) (c : ascii) : bool :=
  match cl with
  | Lit a => Ascii.eqb c a
  | NotLit a => negb (Ascii.eqb c a)
  | Dot => negb (Ascii.eqb c newline)
  end.

Inductive atom : Type :=
  | One (cl : cclass)       (* one character of the class *)
  | Plus (cl : cclass)      (* one or more, greedy *)
  | CapStar (cl : cclass).  (* zero or more, greedy, in a capturing group *)

(** The length of the longest prefix of [s] in the class. *)
Fixpoint span (cl : cclass) (s : list ascii) : nat :=
  match s with
  | c :: s' => if cmatch cl c then S (span cl s') else 0
  | [] => 0
  end.

(** The first success of [f] at [lo + n], [lo + n - 1], ..., [lo]. *)
Fixpoint descend {A} (f : nat → option A) (lo n : nat) : option A :=
  match f (lo + n) with
  | Some a => Some a
  | None =>
      match n with
      | 0 => None
      | S n' => descend f lo n'
      end
  end.

(** [re.match]: the captured groups of the first match at the start of
    [s], in the order of backtracking. *)
Fixpoint re_match (re : list atom) (s : list ascii)
    : option (list (list ascii)) :=
  match re with
  | [] => Some []
  | One cl :: re' =>
      match s with
      | c :: s' => if cmatch cl c then re_match re' s' else None
      | [] => None
      end
  | Plus cl :: re' =>
      match span cl s with
      | 0 => None
      | S n => descend (λ k, re_match re' (drop k s)) 1 n
      end
  | CapStar cl :: re' =>
      descend (λ k, (λ gs, take k s :: gs) <$> re_match re' (drop k s))
              0 (span cl s)
  end.

(** A literal string as a pattern. *)
Definition lits (s : string) : list atom :=
  map (λ c, One (Lit c)) (String.list_ascii_of_string s).

End Re.

(** ** Awaitable code

    The coroutines of the handles, as trees of the operations they await:
    the calls on the socket.io client ([self._sio]) and the correlated
    calls through the request manager ([self._req.emit], whose caller
    receives what [SocketRequestManager.emit_result] gives).  The
    environment answers an operation with a value or with an exception,
    which is raised at the [await]. *)
Module Prog.

Inductive op : Type :=
  | SioConnect (url : pyval) (auth : option pyval)
      (* sio.connect(url, transports=['websocket'][, auth=auth]) *)
  | SioEmit (event : string) (data : pyval)   (* sio.emit(event, data) *)
  | SioDisconnect                             (* sio.disconnect() *)
  | ReqEmit (req : nat) (verb : string) (data : dict).
      (* req.emit(verb, data), on the manager with reference req *)

Inductive prog (A : Type) : Type :=
  | Ret (a : A)
  | Raise (e : exn)
  | Do (o : op) (k : result pyval → prog A).
Arguments Ret {A} a.
Arguments Raise {A} e.
Arguments Do {A} o k.

Fixpoint bind {A B} (p : prog A) (f : A → prog B) : prog B :=
  match p with
  | Ret a => f a
  | Raise e => Raise e
  | Do o k => Do o (λ r, bind (k r) f)
  end.

#[export] Instance prog_ret : MRet prog := @Ret.
#[export] Instance prog_bind : MBind prog := λ A B f p, bind p f.
#[export] Instance prog_fmap : FMap prog :=
  λ A B f p, bind p (λ a, Ret (f a)).

(** [await] one operation. *)
Definition perform (o : op) : prog pyval :=
  Do o (λ r, match r with
             | Ok v => Ret v
             | Err e => Raise e
             end).

(** A fallible evaluation inside a coroutine. *)
Definition lift {A} (r : result A) : prog A :=
  match r with
  | Ok a => Ret a
  | Err e => Raise e
  end.

(** A call whose result the method drops. *)
Definition void {A} (p : prog A) : prog unit := bind p (λ _, Ret ()).

(** [try: body except TypeError: handler]. *)
Fixpoint try_except_TypeError {A} (body handler : prog A) : prog A :=
  match body with
  | Ret a => Ret a
  | Raise e => if is_TypeError e then handler else Raise e
  | Do o k => Do o (λ r, try_except_TypeError (k r) handler)
  end.

Inductive outcome (A : Type) : Type :=
  | Returned (a : A)
  | Raised (e : exn)
  | Suspended.
Arguments Returned {A} a.
Arguments Raised {A} e.
Arguments Suspended {A}.

(** Running a coroutine against the answers the environment gives, in
    order: the operations performed and how the coroutine ends
    ([Suspended]: it awaits an answer that has not come). *)
Fixpoint exec {A} (p : prog A) (answers : list (result pyval))
    : list op * outcome A :=
  match p with
  | Ret a => ([], Returned a)
  | Raise e => ([], Raised e)
  | Do o k =>
      match answers with
      | [] => ([o], Suspended)
      | r :: answers' =>
          let '(ops, out) := exec (k r) answers' in (o :: ops, out)
      end
  end.

(** Every operation a coroutine can perform, whatever the environment
    answers, satisfies [P]. *)
Inductive all_ops {A} (P : op → Prop) : prog A → Prop :=
  | all_ops_Ret a : all_ops P (Ret a)
  | all_ops_Raise e : all_ops P (Raise e)
  | all_ops_Do o k : P o → (∀ r, all_ops P (k r)) → all_ops P (Do o k).

End Prog.
Import Prog.

(** ** SocketElementHandle *)
Module SocketElementHandle.

Record t : Type := Build {
  _req : nat;
  _el_id : pyval;
  _page_id : pyval
}.

(** The two ids every payload of the class starts with. *)
Definition ids (self : t) : dict :=
  <["element_id" := _el_id self]> (<["page_id" := _page_id self]> ∅).

Definition is_visible (self : t) : prog pyval :=
  perform (ReqEmit (_req self) "element_is_visible" (ids self)).

Definition is_hidden (self : t) : prog pyval :=
  perform (ReqEmit (_req self) "element_is_hidden" (ids self)).

Definition bounding_box (self : t) : prog pyval :=
  perform (ReqEmit (_req self) "element_bounding_box" (ids self)).

Definition scroll_into_view_if_needed (self : t) (timeout : pyval)
    : prog unit :=
  void (perform (ReqEmit (_req self) "element_scroll_into_view_if_needed"
                   (dict_merge (ids self) {[ "timeout" := timeout ]}))).

Definition element_handle (self : t) : prog t := Ret self.

Definition wait_for_element_state (self : t) (state timeout : pyval)
    : prog unit :=
  void (perform (ReqEmit (_req self) "element_wait_for_element_state"
                   (dict_merge (ids self)
                      (<["state" := state]> {[ "timeout" := timeout ]})))).

Definition query_selector (self : t) (selector : pyval)
    : prog (option t) :=
  el_id ← perform (ReqEmit (_req self) "element_query_selector"
                     (dict_merge (ids self) {[ "selector" := selector ]}));
  if negb (truthy el_id) then Ret None
  else Ret (Some (Build (_req self) el_id (_page_id self))).

Definition query_selector_all (self : t) (selector : pyval)
    : prog (list t) :=
  el_ids ← perform (ReqEmit (_req self) "element_query_selector_all"
                      (dict_merge (ids self) {[ "selector" := selector ]}));
  eids ← lift (iterate el_ids);
  Ret (map (λ eid, Build (_req self) eid (_page_id self)) eids).

Definition on (self : t) (event handler : pyval) : prog unit := Ret ().

Definition remove_listener (self : t) (event handler : pyval) : prog unit :=
  Ret ().

Definition click (self : t) (args : list pyval) (kwargs : dict)
    : prog unit :=
  void (perform (ReqEmit (_req self) "element_click"
                   (dict_merge (ids self)
                      (<["args" := PTuple args]>
                         {[ "kwargs" := PDict kwargs ]})))).

Definition get_property (self : t) (property_name : pyval) : prog pyval :=
  perform (ReqEmit (_req self) "element_get_property"
             (dict_merge (ids self)
                {[ "property_name" := property_name ]})).

Definition evaluate (self : t) (script : pyval) (args : list pyval)
    (kwargs : dict) : prog pyval :=
  perform (ReqEmit (_req self) "element_evaluate"
             (dict_merge (ids self)
                (<["script" := script]>
                   (<["args" := PTuple args]>
                      {[ "kwargs" := PDict kwargs ]})))).

Definition type (self : t) (text delay : pyval) : prog unit :=
  void (perform (ReqEmit (_req self) "element_type"
                   (dict_merge (ids self)
                      (<["text" := text]> {[ "delay" := delay ]})))).

Definition fill (self : t) (text timeout : pyval) : prog unit :=
  void (perform (ReqEmit (_req self) "element_fill"
                   (dict_merge (ids self)
                      (<["text" := text]> {[ "timeout" := timeout ]})))).

Definition clear (self : t) (timeout : pyval) : prog unit :=
  void (perform (ReqEmit (_req self) "element_clear"
                   (dict_merge (ids self) {[ "timeout" := timeout ]}))).

(** A method of the class with its arguments. *)
Inductive method : Type :=
  | m_is_visible
  | m_is_hidden
  | m_bounding_box
  | m_scroll_into_view_if_needed (timeout : pyval)
  | m_element_handle
  | m_wait_for_element_state (state timeout : pyval)
  | m_query_selector (selector : pyval)
  | m_query_selector_all (selector : pyval)
  | m_on (event handler : pyval)
  | m_remove_listener (event handler : pyval)
  | m_click (args : list pyval) (kwargs : dict)
  | m_get_property (property_name : pyval)
  | m_evaluate (script : pyval) (args : list pyval) (kwargs : dict)
  | m_type (text delay : pyval)
  | m_fill (text timeout : pyval)
  | m_clear (timeout : pyval).

(** Calling a method, its result dropped. *)
Definition invoke (self : t) (m : method) : prog unit :=
  match m with
  | m_is_visible => void (is_visible self)
  | m_is_hidden => void (is_hidden self)
  | m_bounding_box => void (bounding_box self)
  | m_scroll_into_view_if_needed timeout =>
      scroll_into_view_if_needed self timeout
  | m_element_handle => void (element_handle self)
  | m_wait_for_element_state state timeout =>
      wait_for_element_state self state timeout
  | m_query_selector selector => void (query_selector self selector)
  | m_query_selector_all selector =>
      void (query_selector_all self selector)
  | m_on event handler => on self event handler
  | m_remove_listener event handler => remove_listener self event handler
  | m_click args kwargs => click self args kwargs
  | m_get_property property_name => void (get_property self property_name)
  | m_evaluate script args kwargs => void (evaluate self script args kwargs)
  | m_type text delay => type self text delay
  | m_fill text timeout => fill self text timeout
  | m_clear timeout => clear self timeout
  end.

End SocketElementHandle.

(** ** SocketLocator *)
Module SocketLocator.

Record t : Type := Build {
  _req : nat;
  _parent_id : pyval;
  _selector : pyval;
  _exact : pyval;
  _page_id : pyval
}.

(** [SocketLocator(req, parent_id, selector, **kwargs)]: the keywords
    are [exact] (default False) and [page_id] (default None); any other
    is a [TypeError]. *)
Definition __init__kw (req : nat) (parent_id selector : pyval)
    (kwargs : dict) : result t :=
  if bool_decide (dom kwargs ⊆ ({[ "exact"; "page_id" ]} : gset string))
  then Ok (Build req parent_id selector
             (default (PBool false) (kwargs !! "exact"))
             (default PNone (kwargs !! "page_id")))
  else Err (TypeError "__init__() got an unexpected keyword argument").

(** The query every payload of the class starts with. *)
Definition query (self : t) : dict :=
  <["parent_id" := _parent_id self]>
    (<["selector" := _selector self]> {[ "exact" := _exact self ]}).

Definition filter (self : t) (kwargs : dict) : result t :=
  __init__kw (_req self) (_parent_id self) (_selector self) kwargs.

Definition evaluate_all (self : t) (expression : pyval) : prog pyval :=
  perform (ReqEmit (_req self) "locator_evaluate_all"
             (dict_merge (query self) {[ "expression" := expression ]})).

Definition count (self : t) : prog pyval :=
  perform (ReqEmit (_req self) "locator_count" (query self)).

Definition first (self : t) : prog (option SocketElementHandle.t) :=
  el_id ← perform (ReqEmit (_req self) "locator_first" (query self));
  Ret (if truthy el_id
       then Some (SocketElementHandle.Build (_req self) el_id
                    (_page_id self))
       else None).

Definition nth (self : t) (index : Z) : t :=
  Build (_req self) (_parent_id self) (_selector self) (_exact self)
        (_page_id self).

Definition select_option (self : t) (kwargs : dict) : prog pyval :=
  perform (ReqEmit (_req self) "locator_select_option"
             (dict_merge (query self) kwargs)).

Definition element_handle (self : t)
    : prog (option SocketElementHandle.t) :=
  el_id ← perform (ReqEmit (_req self) "locator_element_handle"
                     (query self));
  Ret (if truthy el_id
       then Some (SocketElementHandle.Build (_req self) el_id
                    (_page_id self))
       else None).

Definition locator (self : t) (selector : pyval) : t :=
  Build (_req self) (_parent_id self) selector (_exact self)
        (_page_id self).

Definition frame_locator (self : t) (selector : pyval) : t :=
  Build (_req self) (_parent_id self) selector (_exact self)
        (_page_id self).

Definition click (self : t) (args : list pyval) (kwargs : dict)
    : prog unit :=
  void (perform (ReqEmit (_req self) "locator_click"
                   (dict_merge (query self)
                      (<["args" := PTuple args]>
                         {[ "kwargs" := PDict kwargs ]})))).

Definition evaluate (self : t) (script : pyval) (args : list pyval)
    (kwargs : dict) : prog pyval :=
  perform (ReqEmit (_req self) "locator_evaluate"
             (dict_merge (query self)
                (<["script" := script]>
                   (<["args" := PTuple args]>
                      {[ "kwargs" := PDict kwargs ]})))).

Definition fill (self : t) (text timeout : pyval) : prog unit :=
  void (perform (ReqEmit (_req self) "locator_fill"
                   (dict_merge (query self)
                      (<["text" := text]> {[ "timeout" := timeout ]})))).

(** A method of the class that awaits the remote side, with its
    arguments. *)
Inductive method : Type :=
  | m_evaluate_all (expression : pyval)
  | m_count
  | m_first
  | m_select_option (kwargs : dict)
  | m_element_handle
  | m_click (args : list pyval) (kwargs : dict)
  | m_evaluate (script : pyval) (args : list pyval) (kwargs : dict)
  | m_fill (text timeout : pyval).

(** What a method hands back to its caller. *)
Inductive answer : Type :=
  | Value (v : pyval)
  | Element (h : option SocketElementHandle.t)
  | Nothing.

Definition invoke (self : t) (m : method) : prog answer :=
  match m with
  | m_evaluate_all expression => Value <$> evaluate_all self expression
  | m_count => Value <$> count self
  | m_first => Element <$> first self
  | m_select_option kwargs => Value <$> select_option self kwargs
  | m_element_handle => Element <$> element_handle self
  | m_click args kwargs => (λ _, Nothing) <$> click self args kwargs
  | m_evaluate script args kwargs =>
      Value <$> evaluate self script args kwargs
  | m_fill text timeout => (λ _, Nothing) <$> fill self text timeout
  end.

End SocketLocator.

(** ** SocketFrame *)
Module SocketFrame.

Record t : Type := Build {
  _req : nat;
  _frame_id : pyval;
  _page_id : pyval
}.

(** The [url] property. *)
Definition url (self : t) : prog pyval := Ret (_frame_id self).

Definition content (self : t) : prog pyval :=
  perform (ReqEmit (_req self) "frame_content"
             (<["frame_id" := _frame_id self]>
                {[ "page_id" := _page_id self ]})).

Definition evaluate (self : t) (script : pyval) (args : list pyval)
    (kwargs : dict) : prog pyval :=
  perform (ReqEmit (_req self) "frame_evaluate"
             (<["frame_id" := _frame_id self]>
                (<["script" := script]>
                   (<["args" := PTuple args]>
                      {[ "kwargs" := PDict kwargs ]})))).

Definition query_selector (self : t) (selector : pyval)
    : prog (option SocketElementHandle.t) :=
  el_id ← perform (ReqEmit (_req self) "frame_query_selector"
                     (<["frame_id" := _frame_id self]>
                        {[ "selector" := selector ]}));
  if negb (truthy el_id) then Ret None
  else Ret (Some (SocketElementHandle.Build (_req self) el_id
                    (_page_id self))).

Definition query_selector_all (self : t) (selector : pyval)
    : prog (list SocketElementHandle.t) :=
  el_ids ← perform (ReqEmit (_req self) "frame_query_selector_all"
                      (<["frame_id" := _frame_id self]>
                         {[ "selector" := selector ]}));
  eids ← lift (iterate el_ids);
  Ret (map (λ eid, SocketElementHandle.Build (_req self) eid
                     (_page_id self)) eids).

(** [SocketLocator(req, frame_id, selector, page_id)]: the fourth
    positional parameter of the constructor is [exact]. *)
Definition locator (self : t) (selector : pyval) : SocketLocator.t :=
  SocketLocator.Build (_req self) (_frame_id self) selector
                      (_page_id self) PNone.

Definition frame_locator (self : t) (selector : pyval) : SocketLocator.t :=
  SocketLocator.Build (_req self) (_frame_id self) selector
                      (_page_id self) PNone.

Definition click (self : t) (args : list pyval) (kwargs : dict)
    : prog unit :=
  void (perform (ReqEmit (_req self) "frame_click"
                   (<["frame_id" := _frame_id self]>
                      (<["args" := PTuple args]>
                         {[ "kwargs" := PDict kwargs ]})))).

(** A coroutine of the class, with its arguments. *)
Inductive method : Type :=
  | m_url
  | m_content
  | m_evaluate (script : pyval) (args : list pyval) (kwargs : dict)
  | m_query_selector (selector : pyval)
  | m_query_selector_all (selector : pyval)
  | m_click (args : list pyval) (kwargs : dict).

(** Calling a method, its result dropped. *)
Definition invoke (self : t) (m : method) : prog unit :=
  match m with
  | m_url => void (url self)
  | m_content => void (content self)
  | m_evaluate script args kwargs => void (evaluate self script args kwargs)
  | m_query_selector selector => void (query_selector self selector)
  | m_query_selector_all selector => void (query_selector_all self selector)
  | m_click args kwargs => click self args kwargs
  end.

End SocketFrame.

(** ** SocketKeyboard *)
Module SocketKeyboard.

Record t : Type := Build {
  _req : nat;
  _page_id : pyval
}.

Definition press (self : t) (keys : pyval) : prog unit :=
  void (perform (ReqEmit (_req self) "keyboard_press"
                   (<["page_id" := _page_id self]> {[ "keys" := keys ]}))).

Definition type (self : t) (text delay : pyval) : prog unit :=
  void (perform (ReqEmit (_req self) "keyboard_type"
                   (<["page_id" := _page_id self]>
                      (<["text" := text]> {[ "delay" := delay ]})))).

End SocketKeyboard.

(** ** SocketMouse *)
Module SocketMouse.

Record t : Type := Build {
  _req : nat;
  _page_id : pyval
}.

Definition move (self : t) (x y : pyval) : prog unit :=
  void (perform (ReqEmit (_req self) "mouse_move"
                   (<["page_id" := _page_id self]>
                      (<["x" := x]> {[ "y" := y ]})))).

Definition down (self : t) : prog unit :=
  void (perform (ReqEmit (_req self) "mouse_down"
                   {[ "page_id" := _page_id self ]})).

Definition up (self : t) : prog unit :=
  void (perform (ReqEmit (_req self) "mouse_up"
                   {[ "page_id" := _page_id self ]})).

End SocketMouse.

(** ** SocketDownload *)
Module SocketDownload.

Record t : Type := Build {
  _req : nat;
  _download_id : pyval
}.

(** The [suggested_filename] property. *)
Definition suggested_filename (self : t) : prog pyval :=
  Ret (_download_id self).

Definition save_as (self : t) (path : pyval) : prog unit :=
  void (perform (ReqEmit (_req self) "download_save_as"
                   (<["download_id" := _download_id self]>
                      {[ "path" := path ]}))).

(** The [value] property, a coroutine. *)
Definition value (self : t) : prog t := Ret self.

End SocketDownload.

(** ** SocketPage *)
Module SocketPage.

Record t : Type := Build {
  _req : nat;
  _page_id : pyval
}.

Definition goto (self : t) (url : pyval) (kwargs : dict) : prog unit :=
  void (perform (ReqEmit (_req self) "page_goto"
                   (<["page_id" := _page_id self]>
                      (<["url" := url]> {[ "kwargs" := PDict kwargs ]})))).

Definition click (self : t) (selector : pyval) : prog unit :=
  void (perform (ReqEmit (_req self) "page_click"
                   (<["page_id" := _page_id self]>
                      {[ "selector" := selector ]}))).

Definition fill (self : t) (selector text : pyval) : prog unit :=
  void (perform (ReqEmit (_req self) "page_fill"
                   (<["page_id" := _page_id self]>
                      (<["selector" := selector]> {[ "text" := text ]})))).

Definition get_content (self : t) : prog pyval :=
  perform (ReqEmit (_req self) "page_content"
             {[ "page_id" := _page_id self ]}).

(** The pattern given to [re.match]: 'data:image/', one or more
    characters other than ';', then ';base64,', then group 1: as many
    characters other than a newline as there are. *)
Definition data_url_re : list Re.atom :=
  Re.lits "data:image/" ++ [Re.Plus (Re.NotLit ";"%char)]
  ++ Re.lits ";base64," ++ [Re.CapStar Re.Dot].

(** What [screenshot] makes of the result of its call. *)
Definition decode_screenshot (result : pyval) : Py.result pyval :=
  match result with
  | PStr s =>
      if String.prefix "data:image/" s then
        match Re.re_match data_url_re (String.list_ascii_of_string s) with
        | Some groups =>
            match Base64.b64decode
                    (String.string_of_list_ascii (default [] (head groups)))
            with
            | Ok bs => Ok (PBytes bs)
            | Err e => Err e
            end
        | None => Err (ValueError "Unexpected screenshot data URL format")
        end
      else Err (ValueError "Unexpected screenshot result type")
  | PBytes _ | PByteArray _ => Ok result
  | _ => Err (ValueError "Unexpected screenshot result type")
  end.

Definition screenshot (self : t) (kwargs : dict) : prog pyval :=
  result ← perform (ReqEmit (_req self) "page_screenshot"
                      (<["page_id" := _page_id self]>
                         {[ "kwargs" := PDict kwargs ]}));
  lift (decode_screenshot result).

Definition close (self : t) : prog unit :=
  void (perform (ReqEmit (_req self) "page_close"
                   {[ "page_id" := _page_id self ]})).

Definition evaluate (self : t) (script : pyval) (args : list pyval)
    (kwargs : dict) : prog pyval :=
  perform (ReqEmit (_req self) "page_evaluate"
             (<["page_id" := _page_id self]>
                (<["script" := script]>
                   (<["args" := PTuple args]>
                      {[ "kwargs" := PDict kwargs ]})))).

(** The [url] property. *)
Definition url (self : t) : prog pyval := Ret (_page_id self).

Definition is_closed (self : t) : prog pyval := Ret (PBool false).

Definition content (self : t) : prog pyval :=
  perform (ReqEmit (_req self) "page_content"
             {[ "page_id" := _page_id self ]}).

Definition title (self : t) : prog pyval :=
  perform (ReqEmit (_req self) "page_title"
             {[ "page_id" := _page_id self ]}).

(** The [frames] property. *)
Definition frames (self : t) : prog (list SocketFrame.t) :=
  frame_ids ← perform (ReqEmit (_req self) "page_frames"
                         {[ "page_id" := _page_id self ]});
  fids ← lift (iterate frame_ids);
  Ret (map (λ fid, SocketFrame.Build (_req self) fid (_page_id self)) fids).

Definition query_selector (self : t) (selector : pyval)
    : prog (option SocketElementHandle.t) :=
  el_id ← perform (ReqEmit (_req self) "page_query_selector"
                     (<["page_id" := _page_id self]>
                        {[ "selector" := selector ]}));
  if negb (truthy el_id) then Ret None
  else Ret (Some (SocketElementHandle.Build (_req self) el_id
                    (_page_id self))).

Definition query_selector_all (self : t) (selector : pyval)
    : prog (list SocketElementHandle.t) :=
  el_ids ← perform (ReqEmit (_req self) "page_query_selector_all"
                      (<["page_id" := _page_id self]>
                         {[ "selector" := selector ]}));
  eids ← lift (iterate el_ids);
  Ret (map (λ eid, SocketElementHandle.Build (_req self) eid
                     (_page_id self)) eids).

(** [SocketLocator(req, page_id, selector, page_id)]: the fourth
    positional parameter of the constructor is [exact]. *)
Definition locator (self : t) (selector : pyval) : SocketLocator.t :=
  SocketLocator.Build (_req self) (_page_id self) selector
                      (_page_id self) PNone.

Definition frame_locator (self : t) (selector : pyval) : SocketLocator.t :=
  SocketLocator.Build (_req self) (_page_id self) selector
                      (_page_id self) PNone.

Definition get_by_text (self : t) (text : string) (exact : pyval)
    : SocketLocator.t :=
  SocketLocator.Build (_req self) (_page_id self)
                      (PStr (String.append "text=" text)) exact
                      (_page_id self).

Definition reload (self : t) : prog unit :=
  void (perform (ReqEmit (_req self) "page_reload"
                   {[ "page_id" := _page_id self ]})).

Definition wait_for_load_state (self : t) (state : pyval) (kwargs : dict)
    : prog unit :=
  void (perform (ReqEmit (_req self) "page_wait_for_load_state"
                   (<["page_id" := _page_id self]>
                      (<["state" := state]>
                         {[ "kwargs" := PDict kwargs ]})))).

Definition set_viewport_size (self : t) (viewport_size : pyval) : prog unit :=
  void (perform (ReqEmit (_req self) "page_set_viewport_size"
                   (<["page_id" := _page_id self]>
                      {[ "viewport_size" := viewport_size ]}))).

Definition on (self : t) (event handler : pyval) : prog unit := Ret ().

Definition remove_listener (self : t) (event handler : pyval) : prog unit :=
  Ret ().

Definition bring_to_front (self : t) : prog unit :=
  void (perform (ReqEmit (_req self) "page_bring_to_front"
                   {[ "page_id" := _page_id self ]})).

Definition expose_function (self : t) (name func : pyval) : prog unit :=
  Ret ().

Definition go_back (self : t) (kwargs : dict) : prog unit :=
  void (perform (ReqEmit (_req self) "page_go_back"
                   (<["page_id" := _page_id self]>
                      {[ "kwargs" := PDict kwargs ]}))).

Definition go_forward (self : t) (kwargs : dict) : prog unit :=
  void (perform (ReqEmit (_req self) "page_go_forward"
                   (<["page_id" := _page_id self]>
                      {[ "kwargs" := PDict kwargs ]}))).

Definition wait_for_selector (self : t) (selector : pyval) (kwargs : dict)
    : prog unit :=
  void (perform (ReqEmit (_req self) "page_wait_for_selector"
                   (<["page_id" := _page_id self]>
                      (<["selector" := selector]>
                         {[ "kwargs" := PDict kwargs ]})))).

Definition emulate_media (self : t) (kwargs : dict) : prog unit :=
  void (perform (ReqEmit (_req self) "page_emulate_media"
                   (<["page_id" := _page_id self]>
                      {[ "kwargs" := PDict kwargs ]}))).

Definition pdf (self : t) (kwargs : dict) : prog pyval :=
  perform (ReqEmit (_req self) "page_pdf"
             (<["page_id" := _page_id self]>
                {[ "kwargs" := PDict kwargs ]})).

(** The [keyboard] property. *)
Definition keyboard (self : t) : SocketKeyboard.t :=
  SocketKeyboard.Build (_req self) (_page_id self).

(** The [mouse] property. *)
Definition mouse (self : t) : SocketMouse.t :=
  SocketMouse.Build (_req self) (_page_id self).

(** The [viewport_size] property. *)
Definition viewport_size (self : t) : prog pyval := Ret PNone.

Definition get_property (self : t) (property_name : pyval) : prog pyval :=
  perform (ReqEmit (_req self) "page_get_property"
             (<["page_id" := _page_id self]>
                {[ "property_name" := property_name ]})).

Definition expect_download (self : t) (args : list pyval) (kwargs : dict)
    : prog SocketDownload.t :=
  download_id ← perform (ReqEmit (_req self) "page_expect_download"
                           (<["page_id" := _page_id self]>
                              (<["args" := PTuple args]>
                                 {[ "kwargs" := PDict kwargs ]})));
  Ret (SocketDownload.Build (_req self) download_id).

Definition type (self : t) (selector text delay : pyval) : prog unit :=
  void (perform (ReqEmit (_req self) "page_type"
                   (<["page_id" := _page_id self]>
                      (<["selector" := selector]>
                         (<["text" := text]> {[ "delay" := delay ]}))))).

Definition wait_for_timeout (self : t) (timeout : pyval) : prog unit :=
  void (perform (ReqEmit (_req self) "page_wait_for_timeout"
                   (<["page_id" := _page_id self]>
                      {[ "timeout" := timeout ]}))).

(** A method or property of the class that is a coroutine or reads as
    one, with its arguments. *)
Inductive method : Type :=
  | m_goto (url : pyval) (kwargs : dict)
  | m_click (selector : pyval)
  | m_fill (selector text : pyval)
  | m_get_content
  | m_screenshot (kwargs : dict)
  | m_close
  | m_evaluate (script : pyval) (args : list pyval) (kwargs : dict)
  | m_wait_for_load_state (state : pyval) (kwargs : dict)
  | m_set_viewport_size (viewport_size : pyval)
  | m_on (event handler : pyval)
  | m_remove_listener (event handler : pyval)
  | m_url
  | m_is_closed
  | m_bring_to_front
  | m_expose_function (name func : pyval)
  | m_go_back (kwargs : dict)
  | m_go_forward (kwargs : dict)
  | m_wait_for_selector (selector : pyval) (kwargs : dict)
  | m_content
  | m_title
  | m_frames
  | m_query_selector (selector : pyval)
  | m_query_selector_all (selector : pyval)
  | m_emulate_media (kwargs : dict)
  | m_pdf (kwargs : dict)
  | m_viewport_size
  | m_reload
  | m_get_property (property_name : pyval)
  | m_expect_download (args : list pyval) (kwargs : dict)
  | m_type (selector text delay : pyval)
  | m_wait_for_timeout (timeout : pyval).

(** Calling a method, its result dropped. *)
Definition invoke (self : t) (m : method) : prog unit :=
  match m with
  | m_goto url kwargs => goto self url kwargs
  | m_click selector => click self selector
  | m_fill selector text => fill self selector text
  | m_get_content => void (get_content self)
  | m_screenshot kwargs => void (screenshot self kwargs)
  | m_close => close self
  | m_evaluate script args kwargs => void (evaluate self script args kwargs)
  | m_wait_for_load_state state kwargs =>
      wait_for_load_state self state kwargs
  | m_set_viewport_size viewport_size => set_viewport_size self viewport_size
  | m_on event handler => on self event handler
  | m_remove_listener event handler => remove_listener self event handler
  | m_url => void (url self)
  | m_is_closed => void (is_closed self)
  | m_bring_to_front => bring_to_front self
  | m_expose_function name func => expose_function self name func
  | m_go_back kwargs => go_back self kwargs
  | m_go_forward kwargs => go_forward self kwargs
  | m_wait_for_selector selector kwargs =>
      wait_for_selector self selector kwargs
  | m_content => void (content self)
  | m_title => void (title self)
  | m_frames => void (frames self)
  | m_query_selector selector => void (query_selector self selector)
  | m_query_selector_all selector => void (query_selector_all self selector)
  | m_emulate_media kwargs => emulate_media self kwargs
  | m_pdf kwargs => void (pdf self kwargs)
  | m_viewport_size => void (viewport_size self)
  | m_reload => reload self
  | m_get_property property_name => void (get_property self property_name)
  | m_expect_download args kwargs => void (expect_download self args kwargs)
  | m_type selector text delay => type self selector text delay
  | m_wait_for_timeout timeout => wait_for_timeout self timeout
  end.

End SocketPage.

(** ** SocketTracing *)
Module SocketTracing.

Record t : Type := Build {
  _req : nat;
  _ctx_id : pyval
}.

Definition start (self : t) (kwargs : dict) : prog unit :=
  void (perform (ReqEmit (_req self) "tracing_start"
                   (dict_merge {[ "context_id" := _ctx_id self ]} kwargs))).

Definition stop (self : t) (kwargs : dict) : prog unit :=
  void (perform (ReqEmit (_req self) "tracing_stop"
                   (dict_merge {[ "context_id" := _ctx_id self ]} kwargs))).

End SocketTracing.

(** ** SocketContext *)
Module SocketContext.

Record t : Type := Build {
  _req : nat;
  _ctx_id : pyval;
  _pages : list SocketPage.t
}.

(** [new_page] appends to [self._pages]: the context it leaves, and the
    page. *)
Definition new_page (self : t) : prog (t * SocketPage.t) :=
  page_id ← perform (ReqEmit (_req self) "new_page"
                       {[ "context_id" := _ctx_id self ]});
  let page := SocketPage.Build (_req self) page_id in
  Ret (Build (_req self) (_ctx_id self) (_pages self ++ [page]), page).

Definition close (self : t) : prog unit :=
  void (perform (ReqEmit (_req self) "close_context"
                   {[ "context_id" := _ctx_id self ]})).

(** The [tracing] property. *)
Definition tracing (self : t) : SocketTracing.t :=
  SocketTracing.Build (_req self) (_ctx_id self).

(** The [pages] property. *)
Definition pages (self : t) : list SocketPage.t := _pages self.

Definition grant_permissions (self : t) (permissions origin : pyval)
    : prog unit :=
  void (perform (ReqEmit (_req self) "grant_permissions"
                   (<["context_id" := _ctx_id self]>
                      (<["permissions" := permissions]>
                         {[ "origin" := origin ]})))).

Definition add_cookies (self : t) (cookies : pyval) : prog unit :=
  void (perform (ReqEmit (_req self) "add_cookies"
                   (<["context_id" := _ctx_id self]>
                      {[ "cookies" := cookies ]}))).

Definition add_init_script (self : t) (script : pyval) : prog unit :=
  void (perform (ReqEmit (_req self) "add_init_script"
                   (<["context_id" := _ctx_id self]>
                      {[ "script" := script ]}))).

Definition remove_listener (self : t) (event handler : pyval) : prog unit :=
  Ret ().

Definition on (self : t) (event handler : pyval) : prog unit := Ret ().

Definition cookies (self : t) : prog pyval :=
  perform (ReqEmit (_req self) "get_cookies"
             {[ "context_id" := _ctx_id self ]}).

(** A method of the class with its arguments. *)
Inductive method : Type :=
  | m_new_page
  | m_close
  | m_grant_permissions (permissions origin : pyval)
  | m_add_cookies (cookies : pyval)
  | m_add_init_script (script : pyval)
  | m_remove_listener (event handler : pyval)
  | m_on (event handler : pyval)
  | m_cookies.

(** Calling a method, its result dropped. *)
Definition invoke (self : t) (m : method) : prog unit :=
  match m with
  | m_new_page => void (new_page self)
  | m_close => close self
  | m_grant_permissions permissions origin =>
      grant_permissions self permissions origin
  | m_add_cookies cookies => add_cookies self cookies
  | m_add_init_script script => add_init_script self script
  | m_remove_listener event handler => remove_listener self event handler
  | m_on event handler => on self event handler
  | m_cookies => void (cookies self)
  end.

End SocketContext.

(** ** generate_python_client_id

    [f"python_{timestamp}_{random_suffix}"].  [timestamp] is
    [int(time.time() * 1000)], read from the clock; [draws] are the
    positions [random.choices] drew in its population, one for each of the
    [k=9] characters. *)
Definition suffix_alphabet : list ascii :=
  String.list_ascii_of_string "abcdefghijklmnopqrstuvwxyz0123456789".

Definition random_suffix (draws : list nat) : list ascii :=
  omap (λ i, suffix_alphabet !! i) draws.

Definition generate_python_client_id (timestamp : Z) (draws : list nat)
    : string :=
  String.append "python_"
    (String.append (pretty timestamp)
       (String.append "_" (String.string_of_list_ascii (random_suffix draws)))).

(** ** BrowserConfig

    [browser_use.browser.browser.BrowserConfig] is declared outside the
    driver; the driver reads these three attributes of it, each a [str]
    or [None]. *)
Module BrowserConfig.

Record t : Type := Build {
  wss_url : option string;
  cdp_url : option string;
  browser_client_id : option string
}.

End BrowserConfig.

(** ** SocketBrowser *)
Module SocketBrowser.

Record t : Type := Build {
  _config : BrowserConfig.t;
  _python_client_id : string;
  _req : nat;
  _contexts : list SocketContext.t;
  _version : pyval
}.

(** [SocketBrowser(config)].  [python_client_id] is what
    [generate_python_client_id()] returned (a timestamp and a random
    suffix), [req] the reference of the request manager created. *)
Definition __init__ (config : BrowserConfig.t) (python_client_id : string)
    (req : nat) : t :=
  Build config python_client_id req [] PNone.

(** The request manager [__init__] creates. *)
Definition request_manager (self : t) : SocketRequestManager.world :=
  SocketRequestManager.init (BrowserConfig.browser_client_id (_config self)).

(** [{'clientType': 'python', 'clientId': self._python_client_id}]. *)
Definition auth_data (self : t) : pyval :=
  PDict (<["clientType" := PStr "python"]>
           {[ "clientId" := PStr (_python_client_id self) ]}).

Definition setup (self : t) : prog t :=
  let url := opt_or (BrowserConfig.wss_url (_config self))
                    (BrowserConfig.cdp_url (_config self)) in
  if negb (truthy (of_opt url)) then
    Raise (ValueError
             "SocketBrowser requires wss_url or cdp_url for socket.io endpoint")
  else
    _ ← try_except_TypeError
          (perform (SioConnect (of_opt url) (Some (auth_data self))))
          (_ ← perform (SioConnect (of_opt url) None);
           perform (SioEmit "client_auth" (auth_data self)));
    version ← perform (ReqEmit (_req self) "get_version" ∅);
    Ret (Build (_config self) (_python_client_id self) (_req self)
               (_contexts self) version).

Definition open (self : t) : prog t := Ret self.

Definition close (self : t) : prog unit := void (perform SioDisconnect).

(** [[SocketPage(self._req, page['id']) for page in pages]]. *)
Fixpoint pages_of (req : nat) (pages : list pyval)
    : result (list SocketPage.t) :=
  match pages with
  | [] => Ok []
  | page :: pages' =>
      match subscript page "id" with
      | Err e => Err e
      | Ok page_id =>
          match pages_of req pages' with
          | Err e => Err e
          | Ok handles => Ok (SocketPage.Build req page_id :: handles)
          end
      end
  end.

(** [new_context] appends to [self._contexts]: the browser it leaves,
    and the context. *)
Definition new_context (self : t) (kwargs : dict)
    : prog (t * SocketContext.t) :=
  response ← perform (ReqEmit (_req self) "new_context" kwargs);
  pages ← lift (subscript response "pages");
  pages ← lift (iterate pages);
  pages ← lift (pages_of (_req self) pages);
  ctx_id ← lift (subscript response "contextId");
  let ctx := SocketContext.Build (_req self) ctx_id pages in
  Ret (Build (_config self) (_python_client_id self) (_req self)
             (_contexts self ++ [ctx]) (_version self),
       ctx).

(** The [contexts] property. *)
Definition contexts (self : t) : list SocketContext.t := _contexts self.

(** The [version] property: [self._version or '']. *)
Definition version (self : t) : pyval :=
  if truthy (_version self) then _version self else PStr "".

(** The [python_client_id] property. *)
Definition python_client_id (self : t) : string := _python_client_id self.

(** The names an instance of [SocketRequestManager] answers to: the
    attributes [__init__] sets and the functions of the class body. *)
Definition request_manager_attributes : list string :=
  ["sio"; "_browser_client_id"; "_futures"; "__init__"; "emit";
   "_on_response"].

(** [self._req.<name>]: the lookup of an attribute of the manager. *)
Definition request_manager_getattr (name : string) : result unit :=
  if bool_decide (name ∈ request_manager_attributes) then Ok ()
  else Err (OtherError
              (String.append
                 "AttributeError: 'SocketRequestManager' object has no attribute "
                 name)).

(** [set_target_browser_client]: the body is one call,
    [self._req.set_target_browser_client(browser_client_id)], which
    starts by looking the method up on the manager. *)
Definition set_target_browser_client (self : t) (browser_client_id : pyval)
    : prog unit :=
  lift (request_manager_getattr "set_target_browser_client").

End SocketBrowser.

(** ** The contract of a property that stands for remote state

    In the words of the specification: reading the property performs a
    correlated fetch, or reports the property as unavailable. *)
Definition performs_fetch (ops : list op) : Prop :=
  ∃ req verb data, ReqEmit req verb data ∈ ops.

Definition fetched_or_unavailable (p : prog pyval) : Prop :=
  ∀ answers,
    performs_fetch (exec p answers).1 ∨ ∃ e, (exec p answers).2 = Raised e.

(** The operations of a coroutine all go out through the manager [req]
    and carry [id] under [key]. *)
Definition forwards (req : nat) (key : string) (id : pyval)
    (ops : list op) : Prop :=
  ∀ o, o ∈ ops →
    ∃ verb data, o = ReqEmit req verb data ∧ data !! key = Some id.


(** ** Data URLs

    [data:image/<subtype>;base64,<payload>], the shape of a screenshot
    result in the wire contract. *)
Definition data_url (subtype payload : string) : string :=
  String.append "data:image/"
    (String.append subtype (String.append ";base64," payload)).

(** The characters of a [str]. *)
Abbreviation chars := String.list_ascii_of_string.

(** A [str] up to its first newline. *)
Definition first_line (s : string) : string :=
  String.string_of_list_ascii (take (Re.span Re.Dot (chars s)) (chars s)).

(** How a coroutine ends when its last step is a fallible evaluation. *)
Definition outcome_of {A} (r : result A) : outcome A :=
  match r with
  | Ok a => Returned a
  | Err e => Raised e
  end.

(** ** The remote peer

    What the other end of the connection does with a message of [emit]:
    it reads the request id where [emit] put it (in 'data' under
    'browser_command', in the payload itself otherwise) and answers with a
    'response' message for the client's routing target. *)
Definition sent_req_id (target : option string) (msg : string * pyval)
    : pyval :=
  match msg.2 with
  | PDict payload =>
      if truthy (of_opt target) then
        match dict_get "data" payload with
        | PDict data => dict_get "req_id" data
        | _ => PNone
        end
      else dict_get "req_id" payload
  | _ => PNone
  end.

Definition reply (target : option string) (req_id result : pyval) : dict :=
  <["browser_client_id" := of_opt target]>
    (<["req_id" := req_id]> {[ "result" := result ]}).

(** ** Coroutines over a request manager

    A coroutine run on a world of the request manager, against a peer
    that answers every request at once: [self._req.emit(verb, data)] is
    [emit] itself, the peer reads the message off the transport and its
    'response' goes through the handler before the caller is resumed
    with the result of its future.  [uuid] gives the id uuid4 draws for
    the call that creates the n-th future; [server] gives the peer's
    result for a verb and a payload.  The operations on the socket.io
    client itself succeed and return None. *)
Fixpoint drive {A} (p : prog A) (w : SocketRequestManager.world)
    (uuid : nat → string) (server : string → dict → pyval)
    : SocketRequestManager.world * outcome A :=
  match p with
  | Ret a => (w, Returned a)
  | Raise e => (w, Raised e)
  | Do (ReqEmit _ verb data) k =>
      let target :=
        SocketRequestManager._browser_client_id
          (SocketRequestManager.self w) in
      let '(w1, fut) :=
        SocketRequestManager.emit_send w
          (uuid (length (SocketRequestManager.heap w))) verb data in
      match last (SocketRequestManager.wire w1) with
      | Some msg =>
          let w2 :=
            (SocketRequestManager._on_response w1
               (reply target (sent_req_id target msg) (server verb data))).1 in
          match SocketRequestManager.emit_result w2 fut with
          | Some v => drive (k (Ok v)) w2 uuid server
          | None => (w2, Suspended)
          end
      | None => (w1, Suspended)
      end
  | Do _ k => drive (k (Ok PNone)) w uuid server
  end.

(** The same coroutine with each operation answered by a function. *)
Fixpoint answer_with {A} (p : prog A) (oracle : op → result pyval)
    : outcome A :=
  match p with
  | Ret a => Returned a
  | Raise e => Raised e
  | Do o k => answer_with (k (oracle o)) oracle
  end.

(* ===================================================================== *)
(** * Part II: properties *)
(* ===================================================================== *)

(** ** The request manager *)
Section Manager.
Import SocketRequestManager.

Lemma target_emit_send w r verb data :
  _browser_client_id (self (emit_send w r verb data).1)
  = _browser_client_id (self w).
Proof. reflexivity. Qed.

Lemma target_on_response w data :
  _browser_client_id (self (_on_response w data).1)
  = _browser_client_id (self w).
Proof.
  unfold _on_response.
  repeat (case_match; simpl; try reflexivity).
Qed.

Lemma target_run w tr :
  _browser_client_id (self (run w tr)) = _browser_client_id (self w).
Proof.
  revert w. induction tr as [|ev tr IH]; intros w; [reflexivity|].
  simpl. rewrite IH. destruct ev.
  - exact (target_emit_send _ _ _ _).
  - exact (target_on_response _ _).
Qed.

Lemma run_app w tr1 tr2 : run w (tr1 ++ tr2) = run (run w tr1) tr2.
Proof. apply foldl_app. Qed.

(** What [find_future] finds is an entry of the map, under a string. *)
Lemma find_future_Some futures req_id r fut :
  find_future futures req_id = Ok (Some (r, fut)) →
  req_id = PStr r ∧ futures !! r = Some fut.
Proof.
  unfold find_future. destruct (hashable req_id); [|done].
  destruct req_id as [| | |s| | | | |]; try done.
  destruct (futures !! s) as [f|] eqn:Hs; [|done].
  simpl. by intros [= <- <-].
Qed.

(** What the handler does to the world: nothing, or it takes the entry
    of the message's id out and sets the result of its future. *)
Lemma on_response_cases w data :
  (_on_response w data).1 = w
  ∨ ∃ r fut,
      eq_target (dict_get "browser_client_id" data)
                (_browser_client_id (self w)) = true
      ∧ dict_get "req_id" data = PStr r
      ∧ _futures (self w) !! r = Some fut
      ∧ (_on_response w data).1
        = {| self := {| _browser_client_id := _browser_client_id (self w);
                        _futures := delete r (_futures (self w)) |};
             heap := (set_result (heap w) fut (dict_get "result" data)).1;
             wire := wire w |}.
Proof.
  unfold _on_response.
  destruct (eq_target _ _) eqn:Ht; [|by left]. cbn [negb].
  destruct (negb (truthy _)); [by left|].
  destruct (find_future _ _) as [[[r fut]|]|e] eqn:Hfind; [|by left..].
  apply find_future_Some in Hfind as [Hid Hfut].
  right. exists r, fut.
  by destruct (set_result _ _ _).
Qed.

Lemma call_ids_app tr1 tr2 :
  call_ids (tr1 ++ tr2) = (call_ids tr1 ++ call_ids tr2)%list.
Proof.
  induction tr1 as [|[r verb data|data] tr1 IH]; simpl; [done| |done].
  by rewrite IH.
Qed.

Lemma issued_app tr1 tr2 : issued (tr1 ++ tr2) = issued tr1 + issued tr2.
Proof.
  induction tr1 as [|[r verb data|data] tr1 IH]; simpl; [done| |done].
  by rewrite IH.
Qed.

(** [set_result] on an unresolved future resolves it and raises nothing. *)
Lemma set_result_pending h f v :
  h !! f = Some Pending → set_result h f v = (<[f := Done v]> h, None).
Proof. intros Hf. unfold set_result. by rewrite Hf. Qed.

Lemma length_set_result h f v : length (set_result h f v).1 = length h.
Proof.
  unfold set_result. repeat case_match; simpl; try done.
  apply length_insert.
Qed.

(** The handler unfolded, for a message addressed to this manager whose
    request id is registered. *)
Lemma on_response_registered w data r f :
  eq_target (dict_get "browser_client_id" data)
            (_browser_client_id (self w)) = true →
  dict_get "req_id" data = PStr r → r ≠ "" →
  _futures (self w) !! r = Some f →
  heap w !! f = Some Pending →
  _on_response w data
  = ({| self := {| _browser_client_id := _browser_client_id (self w);
                   _futures := delete r (_futures (self w)) |};
        heap := <[f := Done (dict_get "result" data)]> (heap w);
        wire := wire w |}, None).
Proof.
  intros Ht Hr Hne Hf Hp. unfold _on_response.
  rewrite Ht, Hr. simpl.
  destruct (String.eqb_spec r "") as [?|_]; [done|]. simpl.
  rewrite Hf. simpl. by rewrite (set_result_pending _ _ _ Hp).
Qed.

(** The handler unfolded, for a message with a hashable request id that
    is not registered. *)
Lemma on_response_unregistered w data :
  hashable (dict_get "req_id" data) = true →
  (∀ r, dict_get "req_id" data = PStr r → _futures (self w) !! r = None) →
  _on_response w data = (w, None).
Proof.
  intros Hh Hno. unfold _on_response.
  destruct (negb (eq_target _ _)); [done|].
  destruct (negb (truthy _)); [done|].
  unfold find_future. rewrite Hh.
  destruct (dict_get "req_id" data) eqn:Hr; try done.
  by rewrite (Hno _ eq_refl).
Qed.

(** A message for another target is dropped. *)
Lemma on_response_other_target w data :
  eq_target (dict_get "browser_client_id" data)
            (_browser_client_id (self w)) = false →
  _on_response w data = (w, None).
Proof. intros Ht. unfold _on_response. by rewrite Ht. Qed.

Lemma inv_init target : inv (init target).
Proof. split; intros *; simpl; by rewrite lookup_empty. Qed.

Lemma inv_emit_send w r verb data :
  inv w → inv (emit_send w r verb data).1.
Proof.
  intros [Hp Hi]. split; simpl.
  - intros r' f. rewrite lookup_insert. case_decide.
    + intros [= <-]. by rewrite lookup_app_r, Nat.sub_diag.
    + intros Hf. rewrite lookup_app_l; [by eapply Hp|].
      eapply lookup_lt_Some, Hp, Hf.
  - intros r1 r2 f. rewrite !lookup_insert.
    repeat case_decide; subst; try done.
    + intros [= <-] Hf. apply Hp, lookup_lt_Some in Hf. lia.
    + intros Hf [= <-]. apply Hp, lookup_lt_Some in Hf. lia.
    + apply Hi.
Qed.

(** On a world that satisfies the invariant the handler raises at most
    the [TypeError] of an unhashable request id, and keeps the
    invariant. *)
Lemma inv_on_response w data :
  inv w →
  inv (_on_response w data).1
  ∧ ((_on_response w data).2 = None
     ∨ (hashable (dict_get "req_id" data) = false
        ∧ _on_response w data
          = (w, Some (TypeError
                        (unhashable_message (dict_get "req_id" data)))))).
Proof.
  intros Hinv.
  destruct (eq_target (dict_get "browser_client_id" data)
              (_browser_client_id (self w))) eqn:Ht;
    [|rewrite on_response_other_target by done; auto].
  destruct (hashable (dict_get "req_id" data)) eqn:Hh.
  - destruct (dict_get "req_id" data) as [| | |r| | | | |] eqn:Hr;
      try (rewrite on_response_unregistered by (rewrite ?Hr; done); by auto).
    destruct (_futures (self w) !! r) as [f|] eqn:Hf;
      [|rewrite on_response_unregistered; [by auto|by rewrite Hr|];
        rewrite Hr; by intros ? [= <-]].
    destruct (decide (r = "")) as [->|Hne].
    { unfold _on_response. rewrite Ht, Hr. simpl. auto. }
    destruct Hinv as [Hp Hi].
    rewrite (on_response_registered w data r f) by eauto.
    split; [|by left]. split; simpl.
    + intros r' f'. rewrite lookup_delete. case_decide; [done|].
      intros Hf'. rewrite list_lookup_insert_ne; [by eapply Hp|].
      intros <-. eauto.
    + intros r1 r2 f'. rewrite !lookup_delete.
      repeat case_decide; try done. apply Hi.
  - unfold _on_response. rewrite Ht. simpl.
    destruct (truthy (dict_get "req_id" data)); simpl; [|by auto].
    unfold find_future. rewrite Hh. auto.
Qed.

Lemma inv_step w ev : inv w → inv (step w ev).
Proof.
  destruct ev; simpl; [apply inv_emit_send|].
  intros Hinv. by apply inv_on_response.
Qed.

Lemma inv_run w tr : inv w → inv (run w tr).
Proof.
  revert w. induction tr as [|ev tr IH]; intros w Hinv; [done|].
  simpl. by apply IH, inv_step.
Qed.

(** Every world reached from [init] satisfies the invariant. *)
Lemma inv_reachable target tr : inv (run (init target) tr).
Proof. apply inv_run, inv_init. Qed.

Lemma length_heap_run w tr :
  length (heap (run w tr)) = length (heap w) + issued tr.
Proof.
  revert w. induction tr as [|ev tr IH]; intros w; simpl; [lia|].
  rewrite IH. destruct ev as [r verb data|data]; simpl.
  - rewrite length_app. simpl. lia.
  - f_equal. unfold _on_response.
    repeat (case_match; simpl; try done).
    match goal with H : set_result _ _ _ = _ |- _ =>
      apply (f_equal fst) in H; simpl in H; rewrite <- H end.
    apply length_set_result.
Qed.

(** A resolved future keeps its result: the handler only resolves
    registered futures, and those are unresolved. *)
Lemma done_step w ev f v :
  inv w → heap w !! f = Some (Done v) → heap (step w ev) !! f = Some (Done v).
Proof.
  intros Hinv Hf. destruct ev as [r verb data|data]; simpl.
  - rewrite lookup_app_l; [done|]. by eapply lookup_lt_Some.
  - destruct (inv_on_response w data Hinv) as [_ Hcase].
    destruct (eq_target (dict_get "browser_client_id" data)
                (_browser_client_id (self w))) eqn:Ht;
      [|by rewrite on_response_other_target].
    destruct Hcase as [Hnone|[_ ->]]; [|done].
    unfold _on_response in *. rewrite Ht in *. simpl in *.
    repeat (case_match; simpl in *; try done).
    match goal with H : set_result _ _ _ = _ |- _ =>
      unfold set_result in H; repeat case_match; simplify_eq end.
    rewrite list_lookup_insert_ne; [done|]. intros <-. congruence.
Qed.

Lemma done_run w tr f v :
  inv w → heap w !! f = Some (Done v) → heap (run w tr) !! f = Some (Done v).
Proof.
  revert w. induction tr as [|ev tr IH]; intros w Hinv Hf; [done|].
  simpl. apply IH; [by apply inv_step|by apply done_step].
Qed.

(** From a world where [r] is registered for future [f]: the caller
    gets the result of the first answer to [r], whatever else happens,
    as long as no later call is given the same id. *)
Lemma emit_result_run w r f tr :
  inv w → r ≠ "" → r ∉ call_ids tr →
  _futures (self w) !! r = Some f →
  emit_result (run w tr) f
  = first_answer (_browser_client_id (self w)) r tr.
Proof.
  revert w. induction tr as [|ev tr IH]; intros w Hinv Hne Hids Hf.
  { simpl. unfold emit_result. destruct Hinv as [Hp _].
    by rewrite (Hp _ _ Hf). }
  destruct ev as [r' verb data|data]; simpl in *.
  - apply not_elem_of_cons in Hids as [Hrr Hids].
    rewrite <- (target_emit_send w r' verb data).
    apply IH; [by apply inv_emit_send|done|done|].
    simpl. by rewrite lookup_insert_ne.
  - destruct (answers (_browser_client_id (self w)) r data) eqn:Hans.
    + unfold answers in Hans. apply andb_true_iff in Hans as [Ht Hr].
      destruct (dict_get "req_id" data) as [| | |s| | | | |] eqn:Hs;
        try done.
      apply String.eqb_eq in Hr as ->.
      pose proof Hinv as [Hp _].
      pose proof (on_response_registered w data r f Ht Hs Hne Hf
                    (Hp _ _ Hf)) as Hstep.
      unfold emit_result.
      rewrite (done_run _ tr f (dict_get "result" data)); [done| |].
      * pose proof (inv_on_response w data Hinv) as [Hinv' _]. done.
      * rewrite Hstep. simpl. apply list_lookup_insert_eq.
        by eapply lookup_lt_Some, Hp.
    + rewrite <- (target_on_response w data).
      pose proof (inv_on_response w data Hinv) as [Hinv' Hcase].
      apply IH; [done|done|done|].
      destruct (eq_target (dict_get "browser_client_id" data)
                  (_browser_client_id (self w))) eqn:Ht;
        [|by rewrite on_response_other_target].
      destruct Hcase as [Hnone|[_ ->]]; [|done].
      unfold answers in Hans. rewrite Ht in Hans. simpl in Hans.
      unfold _on_response in *. rewrite Ht in *. simpl in *.
      repeat (case_match; simpl in *; try done).
      all: simplify_eq.
      all: match goal with H : find_future _ _ = _ |- _ =>
             apply find_future_Some in H as [[= <-] _] end.
      all: rewrite lookup_delete_ne; [done|].
      all: intros ->; by rewrite String.eqb_refl in Hans.
Qed.

(** C1: for every call issued through [emit], whatever calls came
    before it ([pre]) and whatever calls and responses come after it
    ([post], in any order), the value the awaiting caller receives is
    the 'result' field of the first 'response' message addressed to this
    manager whose 'req_id' is the id generated for the call; the caller
    stays suspended while there is none.  The ids are those of uuid4:
    not empty, and not drawn again by a later call. *)
Theorem emit_returns_result_of_matching_response
    target pre r verb data post :
  r ≠ "" → r ∉ call_ids post →
  emit_result (run (init target) (pre ++ EvCall r verb data :: post))
              (issued pre)
  = first_answer target r post.
Proof.
  intros Hne Hids. rewrite run_app.
  change (run (run (init target) pre) (EvCall r verb data :: post))
    with (run (emit_send (run (init target) pre) r verb data).1 post).
  set (w := run (init target) pre).
  assert (issued pre = length (heap w)) as ->.
  { unfold w. by rewrite length_heap_run. }
  rewrite (emit_result_run (emit_send w r verb data).1 r
             (length (heap w)) post); [| |done|done|].
  - rewrite target_emit_send. unfold w. by rewrite target_run.
  - apply inv_emit_send, inv_reachable.
  - simpl. apply lookup_insert_eq.
Qed.

(** The scenario of C1: call A (id 1), call B (id 2), then the response
    to 2, then the response to 1; A receives its own result. *)
Lemma emit_returns_result_of_matching_response_witness :
  emit_result
    (run (init (Some "T"))
       ([] ++ EvCall "1" "page_title" {[ "page_id" := PStr "p" ]}
           :: [ EvCall "2" "page_content" {[ "page_id" := PStr "p" ]};
                EvResponse (<["browser_client_id" := PStr "T"]>
                             (<["req_id" := PStr "2"]>
                               {[ "result" := PStr "<html>" ]}));
                EvResponse (<["browser_client_id" := PStr "T"]>
                             (<["req_id" := PStr "1"]>
                               {[ "result" := PStr "Title" ]})) ]))
    (issued [])
  = Some (PStr "Title").
Proof.
  refine (emit_returns_result_of_matching_response
            (Some "T") [] "1" "page_title" _ _ _ _).
  - discriminate.
  - simpl. intros H. apply elem_of_cons in H as [H|H]; [discriminate|].
    by apply elem_of_nil in H.
Defined.

(** The same scenario, step by step: after the response to 2 only B is
    resolved, after the response to 1 both are, each with its own
    result. *)
Example out_of_order_scenario :
  let a := EvCall "1" "page_title" {[ "page_id" := PStr "p" ]} in
  let b := EvCall "2" "page_content" {[ "page_id" := PStr "p" ]} in
  let resp r v := EvResponse (<["browser_client_id" := PStr "T"]>
                                (<["req_id" := PStr r]>
                                   {[ "result" := PStr v ]})) in
  let w1 := run (init (Some "T")) [a; b; resp "2" "<html>"] in
  let w2 := run w1 [resp "1" "Title"] in
  emit_result w1 0 = None ∧ emit_result w1 1 = Some (PStr "<html>")
  ∧ emit_result w2 0 = Some (PStr "Title")
  ∧ emit_result w2 1 = Some (PStr "<html>").
Proof. vm_compute. done. Qed.

(** C2: a 'response' message whose 'browser_client_id' differs from the
    configured one leaves the manager as it is: the map of pending calls,
    every future and the messages sent are unchanged, and the handler
    raises nothing. *)
Theorem response_for_other_target_changes_nothing w data :
  eq_target (dict_get "browser_client_id" data)
            (_browser_client_id (self w)) = false →
  _on_response w data = (w, None)
  ∧ _futures (self (_on_response w data).1) = _futures (self w)
  ∧ ∀ fut, emit_result (_on_response w data).1 fut = emit_result w fut.
Proof.
  intros Ht. rewrite (on_response_other_target w data Ht). done.
Qed.

Lemma response_for_other_target_changes_nothing_witness :
  let w := (emit_send (init (Some "T")) "1" "page_title" ∅).1 in
  let data := <["browser_client_id" := PStr "U"]>
                (<["req_id" := PStr "1"]> {[ "result" := PStr "x" ]}) in
  _on_response w data = (w, None)
  ∧ _futures (self (_on_response w data).1) = _futures (self w)
  ∧ ∀ fut, emit_result (_on_response w data).1 fut = emit_result w fut.
Proof.
  intros w data.
  apply (response_for_other_target_changes_nothing w data).
  reflexivity.
Defined.

(** *** Runs with cancelled callers *)

Lemma play_app w acts1 acts2 :
  play w (acts1 ++ acts2) = play (play w acts1) acts2.
Proof. apply foldl_app. Qed.

Lemma events_app acts1 acts2 :
  events (acts1 ++ acts2) = (events acts1 ++ events acts2)%list.
Proof. apply omap_app. Qed.

Lemma self_cancel w g : self (cancel w g) = self w.
Proof. unfold cancel. by repeat case_match. Qed.

Lemma wire_cancel w g : wire (cancel w g) = wire w.
Proof. unfold cancel. by repeat case_match. Qed.

Lemma length_heap_cancel w g : length (heap (cancel w g)) = length (heap w).
Proof.
  unfold cancel. repeat case_match; simpl; try done. apply length_insert.
Qed.

Lemma target_play w acts :
  _browser_client_id (self (play w acts)) = _browser_client_id (self w).
Proof.
  revert w. induction acts as [|a acts IH]; intros w; [reflexivity|].
  simpl. rewrite IH. destruct a as [ev|g]; simpl.
  - exact (target_run w [ev]).
  - by rewrite self_cancel.
Qed.

Lemma length_call_ids tr : length (call_ids tr) = issued tr.
Proof.
  induction tr as [|[r verb data|data] tr IH]; simpl; [done| |done].
  by rewrite IH.
Qed.

Lemma length_heap_play w acts :
  length (heap (play w acts)) = length (heap w) + issued (events acts).
Proof.
  revert w. induction acts as [|a acts IH]; intros w; simpl; [lia|].
  rewrite IH. destruct a as [ev|g]; simpl.
  - pose proof (length_heap_run w [ev]) as Hev. simpl in Hev.
    rewrite Hev. destruct ev; simpl; lia.
  - by rewrite length_heap_cancel.
Qed.

(** [set_result] touches the future it is given, no other. *)
Lemma set_result_ne h fut v f :
  f ≠ fut → (set_result h fut v).1 !! f = h !! f.
Proof.
  intros Hne. unfold set_result. repeat case_match; simpl; try done.
  by rewrite list_lookup_insert_ne.
Qed.

(** A future that is done stays as it is, whatever happens: [set_result]
    and [cancel] change pending futures only. *)
Lemma done_act w a f v :
  heap w !! f = Some (Done v) → heap (act w a) !! f = Some (Done v).
Proof.
  intros Hf. destruct a as [[r verb data|data]|g]; simpl.
  - rewrite lookup_app_l; [done|]. by eapply lookup_lt_Some.
  - destruct (on_response_cases w data)
      as [->|(r' & fut & _ & _ & _ & ->)]; [done|].
    simpl. unfold set_result. repeat case_match; simpl; try done.
    rewrite list_lookup_insert_ne; [done|]. intros <-. congruence.
  - unfold cancel. repeat case_match; simpl; try done.
    rewrite list_lookup_insert_ne; [done|]. intros <-. congruence.
Qed.

Lemma done_play w acts f v :
  heap w !! f = Some (Done v) → heap (play w acts) !! f = Some (Done v).
Proof.
  revert w. induction acts as [|a acts IH]; intros w Hf; [done|].
  simpl. by apply IH, done_act.
Qed.

(** The pending map of a run with cancellations: an entry [r ↦ f] is that
    of the call that created future [f], which drew [r], no later call
    drew [r], and [f] has no result. *)
Lemma registered_play target acts r f :
  _futures (self (play (init target) acts)) !! r = Some f →
  call_ids (events acts) !! f = Some r
  ∧ (∀ g, f < g → call_ids (events acts) !! g ≠ Some r)
  ∧ (heap (play (init target) acts) !! f = Some Pending
     ∨ heap (play (init target) acts) !! f = Some Cancelled).
Proof.
  revert r f. induction acts as [|a acts IH] using rev_ind; intros r f.
  { simpl. by rewrite lookup_empty. }
  rewrite play_app, events_app. simpl.
  assert (length (heap (play (init target) acts))
          = length (call_ids (events acts))) as Hlen.
  { by rewrite length_heap_play, length_call_ids. }
  set (w := play (init target) acts) in *.
  destruct a as [[r' verb data|data]|g]; simpl.
  - rewrite call_ids_app. simpl. rewrite lookup_insert.
    case_decide as Hr.
    + subst r'. intros [= <-]. split_and!.
      * rewrite Hlen, lookup_app_r by lia. by rewrite Nat.sub_diag.
      * intros g Hg. rewrite lookup_ge_None_2; [done|].
        rewrite length_app. simpl. lia.
      * left. by rewrite lookup_app_r, Nat.sub_diag.
    + intros Hf. destruct (IH _ _ Hf) as (Hid & Hlater & Hst).
      assert (f < length (call_ids (events acts)))
        by (by eapply lookup_lt_Some).
      split_and!.
      * by rewrite lookup_app_l.
      * intros g Hg.
        destruct (decide (g < length (call_ids (events acts)))).
        { rewrite lookup_app_l by done. by apply Hlater. }
        destruct (decide (g = length (call_ids (events acts)))) as [->|].
        { rewrite lookup_app_r, Nat.sub_diag by lia. simpl. congruence. }
        rewrite lookup_ge_None_2; [done|].
        rewrite length_app. simpl. lia.
      * rewrite lookup_app_l by lia. done.
  - rewrite call_ids_app. simpl. rewrite app_nil_r.
    destruct (on_response_cases w data)
      as [->|(r' & fut & _ & _ & Hfut & ->)]; [apply IH|].
    simpl. rewrite lookup_delete. case_decide as Hr; [done|].
    intros Hf. destruct (IH _ _ Hf) as (Hid & Hlater & Hst).
    split_and!; [done|done|].
    rewrite set_result_ne; [done|]. intros ->.
    destruct (IH _ _ Hfut) as (Hid' & _). congruence.
  - rewrite app_nil_r, self_cancel. intros Hf.
    destruct (IH _ _ Hf) as (Hid & Hlater & Hst).
    split_and!; [done|done|].
    unfold cancel. destruct (heap w !! g) as [[| |]|] eqn:Hg; simpl; try done.
    destruct (decide (f = g)) as [->|Hne].
    + right. apply list_lookup_insert_eq. by eapply lookup_lt_Some.
    + by rewrite list_lookup_insert_ne.
Qed.

(** The handler unfolded, for a message addressed to this manager whose
    request id is registered for a cancelled future. *)
Lemma on_response_cancelled w data r f :
  eq_target (dict_get "browser_client_id" data)
            (_browser_client_id (self w)) = true →
  dict_get "req_id" data = PStr r → r ≠ "" →
  _futures (self w) !! r = Some f →
  heap w !! f = Some Cancelled →
  _on_response w data
  = ({| self := {| _browser_client_id := _browser_client_id (self w);
                   _futures := delete r (_futures (self w)) |};
        heap := heap w;
        wire := wire w |}, Some InvalidStateError).
Proof.
  intros Ht Hr Hne Hf Hc. unfold _on_response.
  rewrite Ht, Hr. simpl.
  destruct (String.eqb_spec r "") as [?|_]; [done|]. simpl.
  rewrite Hf. simpl. unfold set_result. by rewrite Hc.
Qed.

(** The handler unfolded, for a message addressed to this manager whose
    request id is truthy and unhashable. *)
Lemma on_response_unhashable w data :
  eq_target (dict_get "browser_client_id" data)
            (_browser_client_id (self w)) = true →
  truthy (dict_get "req_id" data) = true →
  hashable (dict_get "req_id" data) = false →
  _on_response w data
  = (w, Some (TypeError (unhashable_message (dict_get "req_id" data)))).
Proof.
  intros Ht Htr Hh. unfold _on_response. rewrite Ht, Htr. simpl.
  unfold find_future. by rewrite Hh.
Qed.

(** C3 as worded does not hold: nothing in [emit] takes the entry of a
    cancelled caller out of [_futures], so that the first response that
    matches it finds a cancelled future; the handler then raises
    [InvalidStateError] and resolves nothing.  Nor is every response
    without a pending call dropped silently: one whose 'req_id' is a JSON
    array raises [TypeError]. *)
Lemma resolution_contract_counterexample :
  let w := play (init (Some "T"))
             [Ev (EvCall "1" "page_title" ∅); Cancel 0] in
  let data := reply (Some "T") (PStr "1") (PStr "Title") in
  let malformed := reply (Some "T") (PList [PInt 1]) PNone in
  (matching_call w data = Some ("1", 0)
   ∧ (_on_response w data).2 = Some InvalidStateError
   ∧ ¬ resolution_contract w data)
  ∧ (matching_call w malformed = None
     ∧ (_on_response w malformed).2
       = Some (TypeError "unhashable type: 'list'")
     ∧ ¬ resolution_contract w malformed).
Proof.
  intros w data malformed.
  split; (split_and!; [reflexivity|reflexivity|]);
    intros [Hraise _]; vm_compute in Hraise; discriminate.
Qed.

(** C3, amended: in every world the manager reaches through calls,
    responses and cancellations of awaiting callers,
    (1) the handler does what the specification words (a matching
    response removes the entry and resolves the call with the message's
    result, any other response changes nothing, nothing is raised) on
    every response whose 'req_id' is hashable and does not belong to a
    cancelled caller;
    (2) the first response for a registered request id removes the entry;
    when the future is pending it is resolved with the message's 'result'
    and nothing is raised, when the caller was cancelled in the meantime
    the handler raises [InvalidStateError] and no future changes; either
    way any later response carrying the same id is a no-op that raises
    nothing;
    (3) a response whose id (a string, or any other hashable value) is
    not registered is a no-op that raises nothing;
    (4) a response for this manager whose id is truthy and unhashable
    raises [TypeError] and changes nothing;
    (5) no future is resolved twice: a result, once set, stays, whatever
    calls, responses and cancellations follow. *)
Theorem pending_call_resolved_at_most_once target acts :
  let w := play (init target) acts in
  (∀ data,
     hashable (dict_get "req_id" data) = true →
     (∀ r f, matching_call w data = Some (r, f) →
             r ≠ "" ∧ heap w !! f ≠ Some Cancelled) →
     resolution_contract w data)
  ∧ (∀ data r f,
       eq_target (dict_get "browser_client_id" data) target = true →
       dict_get "req_id" data = PStr r → r ≠ "" →
       _futures (self w) !! r = Some f →
       let w' := (_on_response w data).1 in
       _futures (self w') = delete r (_futures (self w))
       ∧ (heap w !! f = Some Pending
          ∧ (_on_response w data).2 = None
          ∧ heap w' = <[f := Done (dict_get "result" data)]> (heap w)
          ∧ emit_result w' f = Some (dict_get "result" data)
          ∨ heap w !! f = Some Cancelled
            ∧ (_on_response w data).2 = Some InvalidStateError
            ∧ heap w' = heap w)
       ∧ (∀ data', dict_get "req_id" data' = PStr r →
                   _on_response w' data' = (w', None)))
  ∧ (∀ data,
       hashable (dict_get "req_id" data) = true →
       (∀ r, dict_get "req_id" data = PStr r →
             _futures (self w) !! r = None) →
       _on_response w data = (w, None))
  ∧ (∀ data,
       eq_target (dict_get "browser_client_id" data) target = true →
       truthy (dict_get "req_id" data) = true →
       hashable (dict_get "req_id" data) = false →
       ∃ msg, _on_response w data = (w, Some (TypeError msg)))
  ∧ (∀ f v acts',
       heap w !! f = Some (Done v) →
       heap (play w acts') !! f = Some (Done v)).
Proof.
  intros w.
  assert (_browser_client_id (self w) = target) as Htw
    by apply target_play.
  assert (∀ data r f,
            eq_target (dict_get "browser_client_id" data) target = true →
            dict_get "req_id" data = PStr r → r ≠ "" →
            _futures (self w) !! r = Some f →
            _futures (self (_on_response w data).1)
            = delete r (_futures (self w))
            ∧ (heap w !! f = Some Pending
               ∧ (_on_response w data).2 = None
               ∧ heap (_on_response w data).1
                 = <[f := Done (dict_get "result" data)]> (heap w)
               ∧ emit_result (_on_response w data).1 f
                 = Some (dict_get "result" data)
               ∨ heap w !! f = Some Cancelled
                 ∧ (_on_response w data).2 = Some InvalidStateError
                 ∧ heap (_on_response w data).1 = heap w)) as Hfirst.
  { intros data r f Ht Hr Hne Hf. rewrite <- Htw in Ht.
    destruct (registered_play target acts r f Hf) as (_ & _ & [Hp|Hc]).
    - rewrite (on_response_registered w data r f) by done.
      split; [done|]. left. split_and!; try done.
      unfold emit_result. simpl. rewrite list_lookup_insert_eq; [done|].
      by eapply lookup_lt_Some.
    - rewrite (on_response_cancelled w data r f) by done.
      split; [done|]. by right. }
  split_and!.
  - intros data Hh Hlive. unfold resolution_contract.
    destruct (matching_call w data) as [[r f]|] eqn:Hm.
    + destruct (Hlive r f eq_refl) as [Hne Hnc].
      unfold matching_call in Hm. rewrite Htw in Hm.
      destruct (eq_target _ target) eqn:Ht; [|done].
      destruct (dict_get "req_id" data) as [| | |s| | | | |] eqn:Hr;
        try done.
      destruct (_futures (self w) !! s) as [f'|] eqn:Hf; [|done].
      simpl in Hm. injection Hm as -> ->.
      destruct (Hfirst data r f Ht Hr Hne Hf)
        as (Hdel & [(_ & Hnone & _ & Hres)|(Hc & _)]); [done|].
      by destruct Hnc.
    + assert (_on_response w data = (w, None)) as ->; [|done].
      unfold matching_call in Hm.
      destruct (eq_target _ (_browser_client_id (self w))) eqn:Ht;
        [|by apply on_response_other_target].
      apply on_response_unregistered; [done|].
      intros r Hr. rewrite Hr in Hm.
      by destruct (_futures (self w) !! r).
  - intros data r f Ht Hr Hne Hf w'.
    destruct (Hfirst data r f Ht Hr Hne Hf) as [Hdel Hcases].
    split_and!; [done|done|].
    intros data' Hr'. apply on_response_unregistered.
    + by rewrite Hr'.
    + intros r'. rewrite Hr'. intros [= <-]. unfold w'. rewrite Hdel.
      apply lookup_delete_eq.
  - apply on_response_unregistered.
  - intros data Ht Htr Hh. eexists.
    apply on_response_unhashable; [by rewrite Htw|done|done].
  - intros f v acts'. apply done_play.
Qed.

Lemma pending_call_resolved_at_most_once_witness :
  let w := play (init (Some "T")) [Ev (EvCall "1" "page_title" ∅)] in
  let data := reply (Some "T") (PStr "1") (PStr "Title") in
  let stale := reply (Some "T") (PStr "7") (PStr "x") in
  (resolution_contract w data
   ∧ _on_response (_on_response w data).1 data
     = ((_on_response w data).1, None))
  ∧ _on_response w stale = (w, None).
Proof.
  intros w data stale.
  pose proof (pending_call_resolved_at_most_once
                (Some "T") [Ev (EvCall "1" "page_title" ∅)])
    as (Hcontract & Hfirst & Hstale & _).
  split_and!.
  - apply Hcontract; [reflexivity|].
    intros r f Hm. vm_compute in Hm. injection Hm as <- <-.
    split; discriminate.
  - destruct (Hfirst data "1" 0) as (_ & _ & Hsame);
      [reflexivity|reflexivity|discriminate|reflexivity|].
    apply Hsame. reflexivity.
  - apply Hstale; [reflexivity|].
    intros r Hr. vm_compute in Hr. injection Hr as <-. reflexivity.
Defined.

(** A request id is a string.  A message for this manager whose 'req_id'
    is a JSON array makes the membership test raise, before anything is
    changed. *)
Example response_with_unhashable_req_id :
  let w := run (init (Some "T")) [EvCall "1" "page_title" ∅] in
  _on_response w (<["browser_client_id" := PStr "T"]>
                    {[ "req_id" := PList [PInt 1] ]})
  = (w, Some (TypeError "unhashable type: 'list'")).
Proof. reflexivity. Qed.

(** C4 as worded does not hold: with a routing target the 'data' field
    is not the caller's payload with only the request id merged in. *)
Lemma wire_contract_counterexample :
  wire (emit_send (init (Some "T")) "r1" "get_version" ∅).1
  ≠ [wire_contract (Some "T") "r1" "get_version" ∅].
Proof.
  intros H.
  apply (f_equal (λ msgs,
           match msgs with
           | [(_, PDict envelope)] =>
               match dict_get "data" envelope with
               | PDict d => d !! "target_browser_client_id"
               | _ => None
               end
           | _ => None
           end)) in H.
  vm_compute in H. discriminate.
Qed.

(** C4, amended: every call hands exactly one message to the transport.
    With a routing target [t] it goes out under 'browser_command' as
    [{browser_client_id: t, command: verb, data: d}] where [d] is the
    caller's payload with 'req_id' and 'target_browser_client_id' (again
    [t]) merged in; without one (None or the empty string) it goes out
    under the verb itself, as the caller's payload with 'req_id' merged
    in, which is what the wire contract words. *)
Theorem emit_dispatch w req_id verb data :
  let target := _browser_client_id (self w) in
  let payload := <["req_id" := PStr req_id]> data in
  wire (emit_send w req_id verb data).1
  = (wire w ++
    [ match target with
      | Some t =>
          if decide (t = "") then (verb, PDict payload)
          else ("browser_command",
                PDict (<["browser_client_id" := PStr t]>
                        (<["command" := PStr verb]>
                          (<["data" :=
                               PDict (<["target_browser_client_id" := PStr t]>
                                        payload)]> ∅))))
      | None => (verb, PDict payload)
      end ])%list
  ∧ (truthy (of_opt target) = false →
     wire (emit_send w req_id verb data).1
     = (wire w ++ [wire_contract target req_id verb data])%list).
Proof.
  intros target payload.
  assert (dict_merge data {[ "req_id" := PStr req_id ]} = payload) as Hm.
  { unfold dict_merge, payload. by rewrite insert_union_singleton_l. }
  split.
  - simpl. rewrite Hm. fold target. f_equal. f_equal.
    destruct target as [t|]; [|done]. simpl.
    case_decide as Ht; [by subst|].
    by destruct (String.eqb_spec t "").
  - intros Hfalsy. simpl. fold target. unfold wire_contract.
    by rewrite Hfalsy, Hm.
Qed.

Lemma emit_dispatch_witness :
  wire (emit_send (init None) "r1" "get_version" ∅).1
  = (wire (init None) ++ [wire_contract None "r1" "get_version" ∅])%list.
Proof.
  apply (emit_dispatch (init None) "r1" "get_version" ∅). reflexivity.
Defined.

End Manager.

(** ** Python values *)
Section Values.

(** Iterating a dict yields each of its keys once. *)
Lemma iterate_dict d :
  ∃ ks, iterate (PDict d) = Ok (map PStr ks)
        ∧ NoDup ks ∧ ∀ k, k ∈ ks ↔ is_Some (d !! k).
Proof.
  exists (fst <$> map_to_list d). split_and!.
  - simpl. f_equal. induction (map_to_list d) as [|kv l IH]; simpl; [done|].
    by rewrite IH.
  - apply NoDup_fst_map_to_list.
  - intros k. rewrite list_elem_of_fmap. split.
    + intros ([k' v] & -> & Hkv). apply elem_of_map_to_list in Hkv.
      by eexists.
    + intros [v Hv]. exists (k, v). split; [done|].
      by apply elem_of_map_to_list.
Qed.

End Values.

(** ** Coroutines *)
Section Coroutines.

Lemma all_ops_bind {A B} (P : op → Prop) (p : prog A) (f : A → prog B) :
  all_ops P p → (∀ a, all_ops P (f a)) → all_ops P (bind p f).
Proof.
  intros Hp Hf. induction Hp as [a|e|o k Ho _ IH]; simpl.
  - apply Hf.
  - constructor.
  - constructor; [done|]. intros r. apply IH.
Qed.

Lemma all_ops_perform (P : op → Prop) (o : op) :
  P o → all_ops P (perform o).
Proof.
  intros Ho. constructor; [done|]. intros [v|e]; constructor.
Qed.

Lemma all_ops_lift {A} (P : op → Prop) (r : result A) :
  all_ops P (lift r).
Proof. destruct r; constructor. Qed.

Lemma all_ops_void {A} (P : op → Prop) (p : prog A) :
  all_ops P p → all_ops P (void p).
Proof. intros Hp. apply all_ops_bind; [done|]. intros _. constructor. Qed.

(** What [all_ops] says about a run. *)
Lemma all_ops_exec {A} (P : op → Prop) (p : prog A) answers o :
  all_ops P p → o ∈ (exec p answers).1 → P o.
Proof.
  intros Hp. revert answers.
  induction Hp as [a|e|o' k Ho _ IH]; intros answers; simpl.
  - intros H. by apply elem_of_nil in H.
  - intros H. by apply elem_of_nil in H.
  - destruct answers as [|r answers].
    + simpl. intros H. apply elem_of_cons in H as [->|H]; [done|].
      by apply elem_of_nil in H.
    + specialize (IH r answers).
      destruct (exec (k r) answers) as [ops out]. simpl in *.
      intros H. apply elem_of_cons in H as [->|H]; [done|]. by apply IH.
Qed.

End Coroutines.


(** ** Session setup *)
Section Session.
Import SocketBrowser.

(** C8: without an endpoint URL (neither [wss_url] nor [cdp_url] set to
    a non-empty string) [setup] raises its configuration error, a
    [ValueError], and has performed no operation on the transport when
    it does, whatever the environment would have answered. *)
Theorem setup_without_endpoint_fails self answers :
  truthy (of_opt (BrowserConfig.wss_url (_config self))) = false →
  truthy (of_opt (BrowserConfig.cdp_url (_config self))) = false →
  exec (setup self) answers
  = ([], Raised (ValueError
       "SocketBrowser requires wss_url or cdp_url for socket.io endpoint")).
Proof.
  intros Hwss Hcdp. unfold setup, opt_or. rewrite Hwss, Hcdp. reflexivity.
Qed.

Lemma setup_without_endpoint_fails_witness :
  exec (setup (__init__ (BrowserConfig.Build None (Some "") (Some "T"))
                 "python_1700000000000_abcdefghi" 0))
       [Ok PNone; Ok (PStr "1.2.3")]
  = ([], Raised (ValueError
       "SocketBrowser requires wss_url or cdp_url for socket.io endpoint")).
Proof.
  apply setup_without_endpoint_fails; reflexivity.
Defined.

(** C7: when the transport's [connect] rejects the inline [auth]
    argument with a [TypeError], [setup] connects again without it,
    emits 'client_auth' with the same payload
    [{clientType: 'python', clientId: <generated id>}], goes on to the
    'get_version' call and returns the browser with the version
    received: the [TypeError] does not reach the caller. *)
Theorem setup_falls_back_to_client_auth self url msg a1 a2 version :
  opt_or (BrowserConfig.wss_url (_config self))
         (BrowserConfig.cdp_url (_config self)) = Some url →
  url ≠ "" →
  auth_data self
  = PDict (<["clientType" := PStr "python"]>
             {[ "clientId" := PStr (_python_client_id self) ]})
  ∧ exec (setup self) [Err (TypeError msg); Ok a1; Ok a2; Ok version]
    = ([ SioConnect (PStr url) (Some (auth_data self));
         SioConnect (PStr url) None;
         SioEmit "client_auth" (auth_data self);
         ReqEmit (_req self) "get_version" ∅ ],
       Returned (Build (_config self) (_python_client_id self) (_req self)
                       (_contexts self) version)).
Proof.
  intros Hurl Hne. split; [reflexivity|].
  unfold setup. rewrite Hurl. simpl.
  destruct (String.eqb_spec url "") as [?|_]; [done|]. reflexivity.
Qed.

Lemma setup_falls_back_to_client_auth_witness :
  let self := __init__ (BrowserConfig.Build (Some "wss://host/socket") None
                          (Some "T"))
                       "python_1700000000000_abcdefghi" 0 in
  exec (setup self)
       [Err (TypeError "connect() got an unexpected keyword argument 'auth'");
        Ok PNone; Ok PNone; Ok (PStr "1.2.3")]
  = ([ SioConnect (PStr "wss://host/socket") (Some (auth_data self));
       SioConnect (PStr "wss://host/socket") None;
       SioEmit "client_auth" (auth_data self);
       ReqEmit 0 "get_version" ∅ ],
     Returned (Build (_config self) (_python_client_id self) 0 []
                     (PStr "1.2.3"))).
Proof.
  intros self.
  refine (proj2 (setup_falls_back_to_client_auth self "wss://host/socket"
                   _ PNone PNone (PStr "1.2.3") _ _)).
  - reflexivity.
  - discriminate.
Defined.

(** When [connect] takes the inline payload there is no second connect
    and no 'client_auth'. *)
Lemma setup_inline_auth self url a version :
  opt_or (BrowserConfig.wss_url (_config self))
         (BrowserConfig.cdp_url (_config self)) = Some url →
  url ≠ "" →
  exec (setup self) [Ok a; Ok version]
  = ([ SioConnect (PStr url) (Some (auth_data self));
       ReqEmit (_req self) "get_version" ∅ ],
     Returned (Build (_config self) (_python_client_id self) (_req self)
                     (_contexts self) version)).
Proof.
  intros Hurl Hne. unfold setup. rewrite Hurl. simpl.
  destruct (String.eqb_spec url "") as [?|_]; [done|]. reflexivity.
Qed.

(** An exception of [connect] that is not a [TypeError] reaches the
    caller, with no second attempt. *)
Lemma setup_connect_error self url e answers :
  opt_or (BrowserConfig.wss_url (_config self))
         (BrowserConfig.cdp_url (_config self)) = Some url →
  url ≠ "" → is_TypeError e = false →
  exec (setup self) (Err e :: answers)
  = ([SioConnect (PStr url) (Some (auth_data self))], Raised e).
Proof.
  intros Hurl Hne He. unfold setup. rewrite Hurl. simpl.
  destruct (String.eqb_spec url "") as [?|_]; [done|]. simpl.
  by rewrite He.
Qed.

End Session.

(** ** Handles *)
Section Handles.

(** C5 as worded does not hold: reading [url] on a page or on a frame
    performs no fetch and raises nothing. *)
Lemma url_contract_counterexample :
  ¬ fetched_or_unavailable (SocketPage.url (SocketPage.Build 0 (PStr "page-1")))
  ∧ ¬ fetched_or_unavailable
        (SocketFrame.url (SocketFrame.Build 0 (PStr "frame-1") (PStr "page-1"))).
Proof.
  split; intros H; destruct (H []) as [(req & verb & data & Hin)|[e He]];
    simpl in *; try discriminate; by apply elem_of_nil in Hin.
Qed.

(** C5, amended: reading [url] performs no operation at all and returns
    the handle's own id: the page id on a [SocketPage], the frame id on
    a [SocketFrame]. *)
Theorem url_returns_internal_id :
  (∀ page answers,
     exec (SocketPage.url page) answers
     = ([], Returned (SocketPage._page_id page)))
  ∧ (∀ frame answers,
       exec (SocketFrame.url frame) answers
       = ([], Returned (SocketFrame._frame_id frame))).
Proof. split; reflexivity. Qed.

(** The pages [new_context] builds from the 'pages' of the response. *)
Lemma pages_of_ids req items page_ids :
  Forall2 (λ item page_id, ∃ d, item = PDict d ∧ d !! "id" = Some page_id)
          items page_ids →
  SocketBrowser.pages_of req items
  = Ok (map (SocketPage.Build req) page_ids).
Proof.
  induction 1 as [|item page_id items page_ids (d & -> & Hid) _ IH];
    [reflexivity|].
  simpl. unfold dict_item. by rewrite Hid, IH.
Qed.








(** C10: [nth] does not look at its index: whatever the indices, it
    builds the same locator, with the fields of the locator it is called
    on (request manager, parent id, selector, exact flag, page id), so
    that every method sends through it what it sends through the
    original. *)
Theorem nth_discards_index (L : SocketLocator.t) (i j : Z) :
  SocketLocator.nth L i = SocketLocator.nth L j
  ∧ SocketLocator._req (SocketLocator.nth L i) = SocketLocator._req L
  ∧ SocketLocator._parent_id (SocketLocator.nth L i)
    = SocketLocator._parent_id L
  ∧ SocketLocator._selector (SocketLocator.nth L i)
    = SocketLocator._selector L
  ∧ SocketLocator._exact (SocketLocator.nth L i) = SocketLocator._exact L
  ∧ SocketLocator._page_id (SocketLocator.nth L i)
    = SocketLocator._page_id L
  ∧ ∀ m, SocketLocator.invoke (SocketLocator.nth L i) m
         = SocketLocator.invoke L m.
Proof.
  split_and!; reflexivity.
Qed.

End Handles.

(** ** Regular expressions *)
Section Regex.
Import Re.
#[local] Open Scope nat_scope.
#[local] Open Scope list_scope.

Lemma span_all cl s :
  Forall (λ c, cmatch cl c = true) s → span cl s = length s.
Proof. induction 1 as [|c s Hc _ IH]; simpl; [done|]. by rewrite Hc, IH. Qed.

Lemma span_app_stop cl xs y ys :
  Forall (λ c, cmatch cl c = true) xs → cmatch cl y = false →
  span cl (xs ++ y :: ys) = length xs.
Proof.
  intros Hxs Hy. induction Hxs as [|c xs Hc _ IH]; simpl.
  - by rewrite Hy.
  - by rewrite Hc, IH.
Qed.

Lemma span_take cl s k :
  k ≤ span cl s →
  k ≤ length s ∧ Forall (λ c, cmatch cl c = true) (take k s).
Proof.
  revert k. induction s as [|c s IH]; intros k; simpl.
  - intros Hk. assert (k = 0) as -> by lia. by split.
  - destruct (cmatch cl c) eqn:Hc.
    + destruct k as [|k]; simpl; [intros _; split; [lia|done]|].
      intros Hk. destruct (IH k) as [Hlen Hall]; [lia|].
      split; [lia|]. by constructor.
    + intros Hk. assert (k = 0) as -> by lia. split; [lia|done].
Qed.

Lemma descend_first {A} (f : nat → option A) lo n a :
  f (lo + n) = Some a → descend f lo n = Some a.
Proof. intros Hf. destruct n; simpl; by rewrite Hf. Qed.

Lemma descend_Some {A} (f : nat → option A) lo n a :
  descend f lo n = Some a → ∃ k, lo ≤ k ≤ lo + n ∧ f k = Some a.
Proof.
  induction n as [|n IH]; simpl.
  - destruct (f (lo + 0)) eqn:Hf; [|done].
    intros [= <-]. exists (lo + 0). split; [lia|done].
  - destruct (f (lo + S n)) eqn:Hf.
    + intros [= <-]. exists (lo + S n). split; [lia|done].
    + intros H. destruct (IH H) as (k & Hk & Hfk). exists k.
      split; [lia|done].
Qed.

Lemma re_match_literal l re s :
  re_match (map (λ c, One (Lit c)) l ++ re) (l ++ s) = re_match re s.
Proof.
  induction l as [|c l IH]; simpl; [done|].
  by rewrite Ascii.eqb_refl.
Qed.

Lemma re_match_literal_inv l re s gs :
  re_match (map (λ c, One (Lit c)) l ++ re) s = Some gs →
  ∃ s', s = l ++ s' ∧ re_match re s' = Some gs.
Proof.
  revert s. induction l as [|c l IH]; intros s; simpl.
  - intros H. by exists s.
  - destruct s as [|c' s]; [done|].
    destruct (Ascii.eqb_spec c' c) as [->|_]; [|done].
    intros H. destruct (IH _ H) as (s' & -> & Hs'). by exists s'.
Qed.

(** The pattern of the screenshot decoder matches a data URL, and group
    1 is the payload up to its first newline. *)
Lemma data_url_re_matches subtype payload :
  subtype ≠ [] → ";"%char ∉ subtype →
  re_match SocketPage.data_url_re
           (chars "data:image/" ++ subtype ++ chars ";base64," ++ payload)
  = Some [take (span Dot payload) payload].
Proof.
  intros Hne Hsemi. unfold SocketPage.data_url_re, lits.
  rewrite re_match_literal.
  assert (Forall (λ c, cmatch (NotLit ";"%char) c = true) subtype) as Hall.
  { apply Forall_forall. intros c Hc. simpl.
    destruct (Ascii.eqb_spec c ";"%char) as [->|_]; [|done].
    by destruct Hsemi. }
  cbn [app re_match].
  assert (chars ";base64," ++ payload
          = ";"%char :: (chars "base64," ++ payload)) as Hsep
    by reflexivity.
  rewrite Hsep at 1. rewrite span_app_stop; [|done|done].
  destruct (length subtype) as [|n] eqn:Hlen.
  { by destruct subtype. }
  apply descend_first.
  replace (1 + n) with (length subtype) by lia.
  rewrite drop_app_length.
  rewrite (re_match_literal (chars ";base64,") [CapStar Dot] payload).
  cbn [re_match]. by apply descend_first.
Qed.

(** What the pattern matches is a data URL: a subtype that is not empty
    and holds no ';' between 'data:image/' and ';base64,'. *)
Lemma data_url_re_matches_inv s gs :
  re_match SocketPage.data_url_re s = Some gs →
  ∃ subtype payload,
    s = chars "data:image/" ++ subtype ++ chars ";base64," ++ payload
    ∧ subtype ≠ [] ∧ ";"%char ∉ subtype.
Proof.
  unfold SocketPage.data_url_re, lits. intros H.
  apply re_match_literal_inv in H as (rest & -> & H).
  cbn [app re_match] in H.
  destruct (span (NotLit ";"%char) rest) as [|n] eqn:Hspan; [done|].
  apply descend_Some in H as (k & Hk & H).
  apply (re_match_literal_inv (chars ";base64,") [CapStar Dot]) in H
    as (payload & Hdrop & _).
  destruct (span_take (NotLit ";"%char) rest k) as [Hlen Hall]; [lia|].
  exists (take k rest), payload. split_and!.
  - by rewrite <- Hdrop, take_drop.
  - intros Hnil. apply (f_equal length) in Hnil.
    rewrite length_take in Hnil. simpl in Hnil. lia.
  - intros Hin. rewrite Forall_forall in Hall.
    apply Hall in Hin. simpl in Hin. done.
Qed.

End Regex.

(** ** base64 *)
Section Base64Facts.
Import Base64.
#[local] Open Scope N_scope.
#[local] Open Scope list_scope.

Lemma all_bytes_complete b : b ∈ all_bytes.
Proof.
  unfold all_bytes. apply list_elem_of_omap.
  exists (Byte.to_N b). split; [|apply Byte.of_to_N].
  apply list_elem_of_fmap. exists (N.to_nat (Byte.to_N b)).
  split; [by rewrite N2Nat.id|].
  apply elem_of_seq. pose proof (Byte.to_N_bounded b). lia.
Qed.

Lemma forall_bytes (P : byte → bool) :
  forallb P all_bytes = true → ∀ b, P b = true.
Proof.
  intros H b. rewrite forallb_forall in H.
  apply H, list_elem_of_In, all_bytes_complete.
Qed.

Lemma forall_bytes2 (P : byte → byte → bool) :
  forallb (λ a, forallb (P a) all_bytes) all_bytes = true →
  ∀ a b, P a b = true.
Proof.
  intros H a b.
  apply (forall_bytes (P a)), (forall_bytes (λ a, forallb (P a) all_bytes) H).
Qed.

Lemma forall_sextets (P : N → bool) :
  forallb P (map N.of_nat (seq 0 64)) = true → ∀ s, s < 64 → P s = true.
Proof.
  intros H s Hs. rewrite forallb_forall in H. apply H.
  rewrite <- (N2Nat.id s). apply in_map, in_seq. lia.
Qed.

(** The two tables are inverse on the alphabet, whose characters are
    ASCII and are neither the pad nor a newline. *)
Lemma table_b2a_a2b s :
  s < 64 →
  let c := Byte.to_N (table_b2a_base64 s) in
  (c =? BASE64_PAD) = false ∧ table_a2b_base64 c = s
  ∧ (c <? 128) = true ∧ c ≠ 10.
Proof.
  intros Hs c.
  pose proof (forall_sextets
    (λ s, let c := Byte.to_N (table_b2a_base64 s) in
          negb (c =? BASE64_PAD) && (table_a2b_base64 c =? s)
          && (c <? 128) && negb (c =? 10))) as H.
  specialize (H ltac:(vm_compute; reflexivity) s Hs). simpl in H.
  fold c in H.
  repeat (apply andb_true_iff in H as [H ?]).
  split_and!.
  - by apply negb_true_iff.
  - by apply N.eqb_eq.
  - done.
  - apply N.eqb_neq. by apply negb_true_iff.
Qed.

(** The 6-bit groups are below 64, and the decoder's shifts put the
    bytes together again. *)
Lemma sextets_of_bytes b0 b1 :
  let n0 := Byte.to_N b0 in
  let n1 := Byte.to_N b1 in
  sextet0 n0 < 64 ∧ sextet1 n0 n1 < 64 ∧ sextet1 n0 0 < 64
  ∧ sextet2 n0 n1 < 64 ∧ sextet2 n0 0 < 64 ∧ sextet3 n0 < 64
  ∧ to_uchar (N.lor (N.shiftl (sextet0 n0) 2)
                    (N.shiftr (sextet1 n0 n1) 4)) = b0
  ∧ to_uchar (N.lor (N.shiftl (sextet0 n0) 2)
                    (N.shiftr (sextet1 n0 0) 4)) = b0
  ∧ N.land (sextet1 n0 n1) 15 = N.shiftr n1 4
  ∧ to_uchar (N.lor (N.shiftl (N.shiftr n0 4) 4)
                    (N.shiftr (sextet2 n0 n1) 2)) = b0
  ∧ to_uchar (N.lor (N.shiftl (N.shiftr n0 4) 4)
                    (N.shiftr (sextet2 n0 0) 2)) = b0
  ∧ to_uchar (N.lor (N.shiftl (N.land (sextet2 n0 n1) 3) 6)
                    (sextet3 n1)) = b1.
Proof.
  intros n0 n1.
  pose proof (forall_bytes2
    (λ b0 b1,
       let n0 := Byte.to_N b0 in
       let n1 := Byte.to_N b1 in
       (sextet0 n0 <? 64) && (sextet1 n0 n1 <? 64) && (sextet1 n0 0 <? 64)
       && (sextet2 n0 n1 <? 64) && (sextet2 n0 0 <? 64)
       && (sextet3 n0 <? 64)
       && Byte.eqb (to_uchar (N.lor (N.shiftl (sextet0 n0) 2)
                                    (N.shiftr (sextet1 n0 n1) 4))) b0
       && Byte.eqb (to_uchar (N.lor (N.shiftl (sextet0 n0) 2)
                                    (N.shiftr (sextet1 n0 0) 4))) b0
       && (N.land (sextet1 n0 n1) 15 =? N.shiftr n1 4)
       && Byte.eqb (to_uchar (N.lor (N.shiftl (N.shiftr n0 4) 4)
                                    (N.shiftr (sextet2 n0 n1) 2))) b0
       && Byte.eqb (to_uchar (N.lor (N.shiftl (N.shiftr n0 4) 4)
                                    (N.shiftr (sextet2 n0 0) 2))) b0
       && Byte.eqb (to_uchar (N.lor (N.shiftl (N.land (sextet2 n0 n1) 3) 6)
                                    (sextet3 n1))) b1)) as H.
  specialize (H ltac:(vm_compute; reflexivity) b0 b1). simpl in H.
  fold n0 n1 in H.
  repeat (apply andb_true_iff in H as [H ?]).
  split_and!;
    first [ by apply N.ltb_lt | by apply Byte.byte_dec_bl
          | by apply N.eqb_eq ].
Qed.

(** One turn of the decoder's loop on a character of the alphabet. *)
Lemma a2b_loop_data s rest quad_pos leftchar pads bin_data :
  s < 64 →
  a2b_loop (table_b2a_base64 s :: rest) quad_pos leftchar pads bin_data
  = match quad_pos with
    | 0%nat => a2b_loop rest 1 s 0 bin_data
    | 1%nat =>
        a2b_loop rest 2 (N.land s 15) 0
          (bin_data ++ [to_uchar (N.lor (N.shiftl leftchar 2)
                                        (N.shiftr s 4))])
    | 2%nat =>
        a2b_loop rest 3 (N.land s 3) 0
          (bin_data ++ [to_uchar (N.lor (N.shiftl leftchar 4)
                                        (N.shiftr s 2))])
    | _ =>
        a2b_loop rest 0 0 0
          (bin_data ++ [to_uchar (N.lor (N.shiftl leftchar 6) s)])
    end.
Proof.
  intros Hs. destruct (table_b2a_a2b s Hs) as (Hpad & Htable & _).
  cbn [a2b_loop]. rewrite Hpad, Htable.
  by destruct (N.leb_spec 64 s); [lia|].
Qed.

(** One turn of the loop on the pad character. *)
Lemma a2b_loop_pad rest quad_pos leftchar pads bin_data :
  a2b_loop (to_uchar BASE64_PAD :: rest) quad_pos leftchar pads bin_data
  = if (2 <=? quad_pos)%nat then
      if (4 <=? quad_pos + S pads)%nat then Ok bin_data
      else a2b_loop rest quad_pos leftchar (S pads) bin_data
    else a2b_loop rest quad_pos leftchar pads bin_data.
Proof. reflexivity. Qed.

Lemma list_ind3 {A} (P : list A → Prop) :
  P [] → (∀ a, P [a]) → (∀ a b, P [a; b]) →
  (∀ a b c l, P l → P (a :: b :: c :: l)) →
  ∀ l, P l.
Proof.
  intros H0 H1 H2 H3 l.
  assert (∀ n l, (length l ≤ n)%nat → P l) as Hn.
  { clear l. induction n as [|n IH]; intros l Hl.
    - destruct l; [done|simpl in Hl; lia].
    - destruct l as [|a [|b [|c l]]]; [done..|].
      apply H3, IH. simpl in Hl. lia. }
  by apply (Hn (length l)).
Qed.

(** Decoding what [b64encode] wrote gives the bytes back, from any
    start of a group of four. *)
Lemma a2b_loop_b64encode bs :
  ∀ leftchar pads bin_data,
    a2b_loop (b64encode bs) 0 leftchar pads bin_data = Ok (bin_data ++ bs).
Proof.
  induction bs as [|b0|b0 b1|b0 b1 b2 bs IH] using list_ind3;
    intros leftchar pads bin_data.
  - simpl. by rewrite app_nil_r.
  - destruct (sextets_of_bytes b0 b0)
      as (H0 & _ & H1 & _ & _ & _ & _ & Hb0 & _).
    cbn [b64encode].
    rewrite a2b_loop_data by done. rewrite a2b_loop_data by done.
    rewrite !a2b_loop_pad. simpl. by rewrite Hb0.
  - destruct (sextets_of_bytes b0 b1)
      as (H0 & H1 & _ & _ & _ & _ & Hb0 & _ & Hland & _).
    destruct (sextets_of_bytes b1 b1)
      as (_ & _ & _ & _ & H2 & _ & _ & _ & _ & _ & Hb1 & _).
    cbn [b64encode].
    rewrite a2b_loop_data by done. rewrite a2b_loop_data by done.
    rewrite a2b_loop_data by done.
    rewrite a2b_loop_pad. simpl.
    rewrite Hb0, Hland, Hb1. by rewrite <- !app_assoc.
  - destruct (sextets_of_bytes b0 b1)
      as (H0 & H1 & _ & _ & _ & _ & Hb0 & _ & Hland & _).
    destruct (sextets_of_bytes b1 b2)
      as (_ & _ & _ & H2 & _ & _ & _ & _ & _ & Hb1 & _ & Hb2).
    destruct (sextets_of_bytes b2 b2) as (_ & _ & _ & _ & _ & H3 & _).
    cbn [b64encode].
    rewrite a2b_loop_data by done. rewrite a2b_loop_data by done.
    rewrite a2b_loop_data by done. rewrite a2b_loop_data by done.
    rewrite IH, Hb0, Hland, Hb1, Hb2. by rewrite <- !app_assoc.
Qed.

(** The characters [b64encode] writes are ASCII, and none is a
    newline. *)
Lemma b64encode_alphabet bs :
  Forall (λ b, (Byte.to_N b <? 128) = true ∧ Byte.to_N b ≠ 10)
         (b64encode bs).
Proof.
  assert (∀ s, s < 64 →
            (Byte.to_N (table_b2a_base64 s) <? 128) = true
            ∧ Byte.to_N (table_b2a_base64 s) ≠ 10) as Henc.
  { intros s Hs. by destruct (table_b2a_a2b s Hs) as (_ & _ & ? & ?). }
  assert ((Byte.to_N (to_uchar BASE64_PAD) <? 128) = true
          ∧ Byte.to_N (to_uchar BASE64_PAD) ≠ 10) as Hpad by done.
  induction bs as [|b0|b0 b1|b0 b1 b2 bs IH] using list_ind3.
  - constructor.
  - destruct (sextets_of_bytes b0 b0) as (H0 & _ & H1 & _).
    cbn [b64encode].
    repeat (constructor; [first [by apply Henc | exact Hpad]|]).
    constructor.
  - destruct (sextets_of_bytes b0 b1) as (H0 & H1 & _).
    destruct (sextets_of_bytes b1 b1) as (_ & _ & _ & _ & H2 & _).
    cbn [b64encode].
    repeat (constructor; [first [by apply Henc | exact Hpad]|]).
    constructor.
  - destruct (sextets_of_bytes b0 b1) as (H0 & H1 & _).
    destruct (sextets_of_bytes b1 b2) as (_ & _ & _ & H2 & _).
    destruct (sextets_of_bytes b2 b2) as (_ & _ & _ & _ & _ & H3 & _).
    cbn [b64encode].
    do 4 (constructor; [by apply Henc|]). exact IH.
Qed.

Lemma N_of_ascii_of_byte b : N_of_ascii (ascii_of_byte b) = Byte.to_N b.
Proof. by destruct b. Qed.

(** [b64decode] inverts [b64encode]. *)
Lemma b64decode_b64encode bs : b64decode (b64encode_str bs) = Ok bs.
Proof.
  unfold b64decode, b64encode_str.
  rewrite String.list_ascii_of_string_of_list_ascii.
  rewrite (proj2 (forallb_forall _ _)).
  - rewrite List.map_map.
    rewrite (List.map_ext _ id) by apply byte_of_ascii_of_byte.
    rewrite List.map_id. unfold a2b_base64.
    by rewrite a2b_loop_b64encode.
  - intros c Hc. apply in_map_iff in Hc as (b & <- & Hb).
    rewrite N_of_ascii_of_byte.
    pose proof (b64encode_alphabet bs) as Hall.
    rewrite Forall_forall in Hall. apply list_elem_of_In in Hb.
    by destruct (Hall _ Hb).
Qed.

(** An encoding has one line. *)
Lemma first_line_b64encode bs :
  first_line (b64encode_str bs) = b64encode_str bs.
Proof.
  unfold first_line, b64encode_str.
  rewrite String.list_ascii_of_string_of_list_ascii.
  rewrite span_all, firstn_all; [done|].
  apply Forall_forall. intros c Hc.
  apply list_elem_of_In, in_map_iff in Hc as (b & <- & Hb).
  pose proof (b64encode_alphabet bs) as Hall.
  rewrite Forall_forall in Hall. apply list_elem_of_In in Hb.
  destruct (Hall _ Hb) as [_ Hnl]. simpl.
  apply negb_true_iff, Ascii.eqb_neq. intros Heq. apply Hnl.
  by rewrite <- N_of_ascii_of_byte, Heq.
Qed.

End Base64Facts.

(** ** Screenshots *)
Section Screenshot.
Import Base64 SocketPage.
#[local] Open Scope list_scope.

Lemma chars_append a b : chars (String.append a b) = chars a ++ chars b.
Proof. induction a as [|c a IH]; simpl; [done|]. by rewrite IH. Qed.

Lemma string_of_app a b :
  String.string_of_list_ascii (a ++ b)
  = String.append (String.string_of_list_ascii a)
                  (String.string_of_list_ascii b).
Proof. induction a as [|c a IH]; simpl; [done|]. by rewrite IH. Qed.

Lemma prefix_append a b : String.prefix a (String.append a b) = true.
Proof.
  induction a as [|c a IH]; simpl; [by destruct b|].
  by destruct (ascii_dec c c).
Qed.

Lemma chars_data_url subtype payload :
  chars (data_url subtype payload)
  = chars "data:image/" ++ chars subtype ++ chars ";base64," ++ chars payload.
Proof. unfold data_url. by rewrite !chars_append. Qed.

Lemma first_line_one_line payload :
  Re.newline ∉ chars payload → first_line payload = payload.
Proof.
  intros Hnl. unfold first_line.
  rewrite span_all, firstn_all;
    [apply String.string_of_list_ascii_of_string|].
  apply Forall_forall. intros c Hc. simpl.
  apply negb_true_iff, Ascii.eqb_neq. by intros ->.
Qed.

(** A data URL is decoded from its payload, up to the first newline. *)
Lemma decode_data_url subtype payload :
  subtype ≠ "" → ";"%char ∉ chars subtype →
  decode_screenshot (PStr (data_url subtype payload))
  = match b64decode (first_line payload) with
    | Ok bs => Ok (PBytes bs)
    | Err e => Err e
    end.
Proof.
  intros Hne Hsemi. unfold decode_screenshot.
  assert (String.prefix "data:image/" (data_url subtype payload) = true)
    as -> by apply prefix_append.
  rewrite chars_data_url, data_url_re_matches; [done| |done].
  intros Hnil. apply Hne.
  by rewrite <- (String.string_of_list_ascii_of_string subtype), Hnil.
Qed.

Lemma span_dot_split cs :
  (Re.newline ∉ take (Re.span Re.Dot cs) cs)
  ∧ (take (Re.span Re.Dot cs) cs = cs
     ∨ ∃ rest, cs = take (Re.span Re.Dot cs) cs ++ Re.newline :: rest).
Proof.
  induction cs as [|c cs [IHn IHs]]; simpl.
  { split; [apply not_elem_of_nil|by left]. }
  destruct (Ascii.eqb_spec c Re.newline) as [->|Hc]; simpl.
  { split; [apply not_elem_of_nil|]. right. by eexists. }
  split.
  - intros H. apply elem_of_cons in H as [H|H]; [done|by apply IHn].
  - destruct IHs as [Hall|[rest Hrest]].
    + left. by rewrite Hall.
    + right. exists rest. f_equal. exact Hrest.
Qed.

(** What [first_line] is: the part of a [str] before its first newline,
    the whole of it when it has none. *)
Lemma first_line_spec s :
  (Re.newline ∉ chars (first_line s))
  ∧ (first_line s = s
     ∨ ∃ rest,
         s = String.append (first_line s)
               (String Re.newline (String.string_of_list_ascii rest))).
Proof.
  unfold first_line.
  rewrite String.list_ascii_of_string_of_list_ascii.
  destruct (span_dot_split (chars s)) as [Hn [Hall|[rest Hrest]]].
  - split; [done|]. left.
    by rewrite Hall, String.string_of_list_ascii_of_string.
  - split; [done|]. right. exists rest.
    rewrite <- (String.string_of_list_ascii_of_string s) at 1.
    rewrite Hrest at 1. by rewrite string_of_app.
Qed.

(** [screenshot] awaits 'page_screenshot' and decodes the result.  A
    data URL [data:image/<subtype>;base64,<payload>] (the subtype not
    empty and without ';') gives what [base64.b64decode] makes of the
    first line of the payload, which is the payload when it has no
    newline: the bytes themselves when the payload is their base64
    encoding, as 'QUJD' gives the three bytes of 'ABC'.  [bytes] and
    [bytearray] results are returned as they are.  Every result of
    another shape raises a [ValueError]. *)
Theorem screenshot_decodes_result :
  (∀ page kwargs result,
     exec (screenshot page kwargs) [Ok result]
     = ([ReqEmit (_req page) "page_screenshot"
           (<["page_id" := _page_id page]> {[ "kwargs" := PDict kwargs ]})],
        outcome_of (decode_screenshot result)))
  ∧ (∀ subtype payload,
       subtype ≠ "" → ";"%char ∉ chars subtype →
       decode_screenshot (PStr (data_url subtype payload))
       = match b64decode (first_line payload) with
         | Ok bs => Ok (PBytes bs)
         | Err e => Err e
         end)
  ∧ (∀ payload,
       (Re.newline ∉ chars (first_line payload))
       ∧ (first_line payload = payload
          ∨ ∃ rest,
              payload
              = String.append (first_line payload)
                  (String Re.newline (String.string_of_list_ascii rest))))
  ∧ (∀ subtype payload,
       subtype ≠ "" → ";"%char ∉ chars subtype →
       Re.newline ∉ chars payload →
       decode_screenshot (PStr (data_url subtype payload))
       = match b64decode payload with
         | Ok bs => Ok (PBytes bs)
         | Err e => Err e
         end)
  ∧ (∀ subtype bs,
       subtype ≠ "" → ";"%char ∉ chars subtype →
       decode_screenshot (PStr (data_url subtype (b64encode_str bs)))
       = Ok (PBytes bs))
  ∧ decode_screenshot (PStr "data:image/png;base64,QUJD")
    = Ok (PBytes ["A"%byte; "B"%byte; "C"%byte])
  ∧ (∀ bs, decode_screenshot (PBytes bs) = Ok (PBytes bs)
           ∧ decode_screenshot (PByteArray bs) = Ok (PByteArray bs))
  ∧ (∀ result,
       (∃ bs, result = PBytes bs ∨ result = PByteArray bs)
       ∨ (∃ subtype payload,
            result = PStr (data_url subtype payload)
            ∧ subtype ≠ "" ∧ ";"%char ∉ chars subtype)
       ∨ (∃ msg, decode_screenshot result = Err (ValueError msg))).
Proof.
  split_and!.
  - intros page kwargs result. unfold screenshot. simpl.
    by destruct (decode_screenshot result).
  - apply decode_data_url.
  - apply first_line_spec.
  - intros subtype payload Hne Hsemi Hnl.
    by rewrite decode_data_url, first_line_one_line.
  - intros subtype bs Hne Hsemi.
    by rewrite decode_data_url, first_line_b64encode, b64decode_b64encode.
  - by vm_compute.
  - done.
  - intros result.
    destruct result as [| | |s|bs|bs| | |];
      try (right; right; eexists; reflexivity);
      try (left; eexists; eauto; fail).
    unfold decode_screenshot.
    destruct (String.prefix "data:image/" s);
      [|right; right; eexists; reflexivity].
    destruct (Re.re_match data_url_re (chars s)) as [gs|] eqn:Hm;
      [|right; right; eexists; reflexivity].
    right; left.
    apply data_url_re_matches_inv in Hm
      as (subtype & payload & Hs & Hne & Hsemi).
    exists (String.string_of_list_ascii subtype),
           (String.string_of_list_ascii payload).
    split_and!.
    + rewrite <- (String.string_of_list_ascii_of_string s), Hs.
      unfold data_url. by rewrite !string_of_app.
    + intros Hnil. apply Hne.
      by rewrite <- (String.list_ascii_of_string_of_list_ascii subtype), Hnil.
    + by rewrite String.list_ascii_of_string_of_list_ascii.
Qed.

Lemma screenshot_decodes_result_witness :
  exec (screenshot (SocketPage.Build 0 (PStr "page-01")) ∅)
       [Ok (PStr (data_url "png" (b64encode_str ["A"%byte; "B"%byte; "C"%byte])))]
  = ([ReqEmit 0 "page_screenshot"
        (<["page_id" := PStr "page-01"]> {[ "kwargs" := PDict ∅ ]})],
     Returned (PBytes ["A"%byte; "B"%byte; "C"%byte]))
  ∧ decode_screenshot (PStr (data_url "jpeg" "QUJD"))
    = Ok (PBytes ["A"%byte; "B"%byte; "C"%byte]).
Proof.
  destruct screenshot_decodes_result as (Hexec & _ & _ & Hurl & Henc & _).
  split.
  - rewrite Hexec, Henc; [reflexivity|discriminate|].
    intros H. vm_compute in H.
    repeat (apply elem_of_cons in H as [H|H]; [discriminate|]).
    by apply elem_of_nil in H.
  - rewrite Hurl; [reflexivity|discriminate| |].
    + intros H. vm_compute in H.
      repeat (apply elem_of_cons in H as [H|H]; [discriminate|]).
      by apply elem_of_nil in H.
    + intros H. vm_compute in H.
      repeat (apply elem_of_cons in H as [H|H]; [discriminate|]).
      by apply elem_of_nil in H.
Defined.

(** C6: [screenshot] returns the base64-decoded bytes of a data URL only
    when the payload is on one line.  The pattern that takes the payload
    out of the data URL captures it with a dot, which stops at a newline,
    and [re.match] does not ask for the whole string to match: of the
    payload 'QUJD', newline, 'REVG' ([base64.b64decode] of which is the
    six bytes of 'ABCDEF', the newline being skipped) only 'QUJD' is
    decoded and [screenshot] returns the three bytes of 'ABC'; and where
    the second line is not base64 at all, so that decoding the payload
    is an error, [screenshot] returns those three bytes as well. *)
Theorem screenshot_drops_lines_after_first :
  let page := SocketPage.Build 0 (PStr "page-01") in
  let request :=
    ReqEmit 0 "page_screenshot"
      (<["page_id" := PStr "page-01"]> {[ "kwargs" := PDict ∅ ]}) in
  let two_lines := String.append "QUJD" (String Re.newline "REVG") in
  let garbage := String.append "QUJD" (String Re.newline "GARBAGE!!") in
  (b64decode two_lines
   = Ok ["A"%byte; "B"%byte; "C"%byte; "D"%byte; "E"%byte; "F"%byte]
   ∧ exec (screenshot page ∅) [Ok (PStr (data_url "png" two_lines))]
     = ([request], Returned (PBytes ["A"%byte; "B"%byte; "C"%byte])))
  ∧ (b64decode garbage = Err (BinasciiError "Incorrect padding")
     ∧ exec (screenshot page ∅) [Ok (PStr (data_url "png" garbage))]
       = ([request], Returned (PBytes ["A"%byte; "B"%byte; "C"%byte]))).
Proof. by vm_compute. Qed.

End Screenshot.


(** ** The request manager over whole runs *)
Section ManagerRuns.
Import SocketRequestManager.
#[local] Open Scope list_scope.

Lemma wire_on_response w data : wire (_on_response w data).1 = wire w.
Proof.
  unfold _on_response. repeat (case_match; simpl; try reflexivity).
Qed.

(** Every call hands one message to the transport, and the handler of
    'response' hands none: after a run the transport has been given as
    many messages as calls were issued, whatever responses came. *)
Theorem one_message_per_call w tr :
  length (wire (run w tr)) = length (wire w) + issued tr
  ∧ ∀ data, wire (step (run w tr) (EvResponse data)) = wire (run w tr).
Proof.
  split; [|intros data; apply wire_on_response].
  revert w. induction tr as [|ev tr IH]; intros w; simpl; [lia|].
  rewrite IH. destruct ev as [r verb data|data]; simpl.
  - rewrite length_app. simpl. lia.
  - by rewrite wire_on_response.
Qed.

(** How the handler ends on a world the manager reaches through calls,
    responses and cancellations: with the [TypeError] of an unhashable
    id, with the [InvalidStateError] of a cancelled future, or with
    nothing raised. *)
Lemma handler_cases target acts data :
  let w := play (init target) acts in
  let req_id := dict_get "req_id" data in
  let unhashable :=
    eq_target (dict_get "browser_client_id" data) target
    && truthy req_id && negb (hashable req_id) in
  let cancelled :=
    eq_target (dict_get "browser_client_id" data) target = true
    ∧ ∃ r f, req_id = PStr r ∧ r ≠ ""
             ∧ _futures (self w) !! r = Some f
             ∧ heap w !! f = Some Cancelled in
  (unhashable = true ∧ ¬ cancelled
   ∧ _on_response w data = (w, Some (TypeError (unhashable_message req_id))))
  ∨ (unhashable = false ∧ cancelled
     ∧ (_on_response w data).2 = Some InvalidStateError)
  ∨ (unhashable = false ∧ ¬ cancelled ∧ (_on_response w data).2 = None).
Proof.
  intros w req_id unhashable cancelled.
  assert (_browser_client_id (self w) = target) as Htw
    by apply target_play.
  unfold unhashable, cancelled.
  destruct (eq_target (dict_get "browser_client_id" data) target) eqn:Ht.
  2:{ right; right. split; [done|split; [by intros [? _]|]].
      rewrite on_response_other_target; [done|by rewrite Htw]. }
  destruct (truthy req_id) eqn:Htr; unfold req_id in Htr.
  2:{ right; right. split; [done|split].
      - intros (_ & r & f & Hr & Hne & _). unfold req_id in Hr.
        rewrite Hr in Htr. simpl in Htr.
        by destruct (String.eqb_spec r "").
      - unfold _on_response. by rewrite Htw, Ht, Htr. }
  destruct (hashable req_id) eqn:Hh; unfold req_id in Hh.
  2:{ left. split; [done|split].
      - intros (_ & r & f & Hr & _). unfold req_id in Hr.
        by rewrite Hr in Hh.
      - apply on_response_unhashable; [by rewrite Htw|done|done]. }
  right. simpl.
  destruct (dict_get "req_id" data) as [| | |r| | | | |] eqn:Hr.
  all: try (right; split; [done|split];
            [by intros (_ & ? & ? & ? & _)|];
            rewrite on_response_unregistered; rewrite ?Hr; done).
  assert (r ≠ "") as Hne by (intros ->; done).
  destruct (_futures (self w) !! r) as [f|] eqn:Hf.
  - destruct (registered_play target acts r f Hf) as (_ & _ & [Hp|Hc]).
    + right. split; [done|split].
      * intros (_ & r' & f' & [= <-] & _ & Hf' & Hc).
        unfold req_id in Hf'. fold w in Hp. congruence.
      * by rewrite (on_response_registered w data r f)
          by (rewrite ?Htw; done).
    + left. split; [done|split].
      * split; [done|]. by exists r, f.
      * by rewrite (on_response_cancelled w data r f)
          by (rewrite ?Htw; done).
  - right. split; [done|split].
    + intros (_ & r' & f' & [= <-] & _ & Hf' & _). congruence.
    + rewrite on_response_unregistered; [done|by rewrite Hr|].
      rewrite Hr. by intros ? [= <-].
Qed.

(** The exceptions of the handler, in every world the manager reaches
    through calls, responses and cancellations of awaiting callers.  It
    raises [TypeError] exactly when the message is addressed to this
    manager and its 'req_id' is truthy and unhashable (a non-empty list
    or dict, a bytearray), and the world is then as before.  It raises
    [InvalidStateError] exactly when the message is addressed to this
    manager and its 'req_id' is registered for a caller that was
    cancelled.  It raises nothing else; in particular it never sets the
    result of a future twice, and every result that was set stays. *)
Theorem handler_exceptions target acts data :
  let w := play (init target) acts in
  let addressed := eq_target (dict_get "browser_client_id" data) target in
  let req_id := dict_get "req_id" data in
  ((∃ msg, (_on_response w data).2 = Some (TypeError msg))
   ↔ addressed = true ∧ truthy req_id = true ∧ hashable req_id = false)
  ∧ ((_on_response w data).2 = Some InvalidStateError
     ↔ addressed = true
       ∧ ∃ r f, req_id = PStr r ∧ r ≠ ""
                ∧ _futures (self w) !! r = Some f
                ∧ heap w !! f = Some Cancelled)
  ∧ (∀ e, (_on_response w data).2 = Some e →
          e = InvalidStateError ∨ ∃ msg, e = TypeError msg)
  ∧ ((∃ msg, (_on_response w data).2 = Some (TypeError msg)) →
     (_on_response w data).1 = w)
  ∧ (∀ f v, heap w !! f = Some (Done v) →
            heap (_on_response w data).1 !! f = Some (Done v)).
Proof.
  intros w addressed req_id.
  assert (addressed = true ∧ truthy req_id = true ∧ hashable req_id = false
          ↔ addressed && truthy req_id && negb (hashable req_id) = true)
    as Hcond.
  { rewrite !andb_true_iff, negb_true_iff. tauto. }
  split_and!.
  5:{ intros f v. exact (done_act w (Ev (EvResponse data)) f v). }
  all: rewrite ?Hcond.
  all: destruct (handler_cases target acts data)
         as [(Hu & Hc & Hres)|[(Hu & Hc & Hres)|(Hu & Hc & Hres)]];
       fold w in Hc, Hres; fold req_id in Hu, Hc, Hres;
       fold addressed in Hu, Hc; rewrite ?Hres, ?Hu; simpl.
  - split; [done|]. intros _. by eexists.
  - split; [by intros [? ?]|done].
  - split; [by intros [? ?]|done].
  - split; [done|]. intros Hc'. by destruct Hc.
  - done.
  - split; [done|]. intros Hc'. by destruct Hc.
  - intros e [= <-]. right. by eexists.
  - intros e [= <-]. by left.
  - done.
  - done.
  - by intros [? ?].
  - by intros [? ?].
Qed.

Lemma handler_exceptions_witness :
  let w := play (init (Some "T"))
             [Ev (EvCall "1" "page_title" ∅); Cancel 0] in
  (_on_response w (reply (Some "T") (PStr "1") (PStr "Title"))).2
  = Some InvalidStateError
  ∧ (_on_response w (reply (Some "T") (PList [PInt 1]) PNone)).1 = w.
Proof.
  intros w. split.
  - apply (proj1 (proj2 (handler_exceptions (Some "T")
             [Ev (EvCall "1" "page_title" ∅); Cancel 0]
             (reply (Some "T") (PStr "1") (PStr "Title"))))).
    split; [reflexivity|]. exists "1", 0.
    split_and!; [reflexivity|discriminate|reflexivity|reflexivity].
  - apply (proj1 (proj2 (proj2 (proj2 (handler_exceptions (Some "T")
             [Ev (EvCall "1" "page_title" ∅); Cancel 0]
             (reply (Some "T") (PList [PInt 1]) PNone)))))).
    by eexists.
Defined.

(** The pending map, in every world the manager reaches through calls,
    responses and cancellations of awaiting callers.  An entry under id
    [r] for future [f] is the entry of the call that created [f]: that
    call drew [r], and no later call drew [r] again.  The future has no
    result: it is pending, or cancelled with its caller.  Two entries
    never share a future. *)
Theorem registered_entry_is_of_its_call target acts :
  let w := play (init target) acts in
  let ids := call_ids (events acts) in
  (∀ r f, _futures (self w) !! r = Some f →
          ids !! f = Some r
          ∧ (∀ g, f < g → ids !! g ≠ Some r)
          ∧ (heap w !! f = Some Pending ∨ heap w !! f = Some Cancelled)
          ∧ emit_result w f = None)
  ∧ (∀ r1 r2 f, _futures (self w) !! r1 = Some f →
                _futures (self w) !! r2 = Some f → r1 = r2).
Proof.
  intros w ids. split.
  - intros r f Hf.
    destruct (registered_play target acts r f Hf) as (Hid & Hlater & Hst).
    split_and!; [done|done|done|].
    unfold emit_result. fold w in Hst. by destruct Hst as [->| ->].
  - intros r1 r2 f Hf1 Hf2.
    destruct (registered_play target acts r1 f Hf1) as (Hid1 & _).
    destruct (registered_play target acts r2 f Hf2) as (Hid2 & _).
    congruence.
Qed.

Lemma registered_entry_is_of_its_call_witness :
  let acts := [Ev (EvCall "1" "page_title" ∅);
               Ev (EvCall "2" "page_content" ∅);
               Cancel 1;
               Ev (EvResponse (reply (Some "T") (PStr "1") (PStr "Home")))] in
  let w := play (init (Some "T")) acts in
  _futures (self w) !! "2" = Some 1
  ∧ call_ids (events acts) !! 1 = Some "2"
  ∧ (heap w !! 1 = Some Pending ∨ heap w !! 1 = Some Cancelled)
  ∧ emit_result w 1 = None.
Proof.
  intros acts w. split; [reflexivity|].
  destruct (proj1 (registered_entry_is_of_its_call (Some "T") acts) "2" 1)
    as (Hid & _ & Hst & Hres); [reflexivity|].
  by split_and!.
Defined.

(** A future that is cancelled stays so: [set_result] and [cancel]
    change pending futures only. *)
Lemma cancelled_act w a f :
  heap w !! f = Some Cancelled → heap (act w a) !! f = Some Cancelled.
Proof.
  intros Hf. destruct a as [[r verb data|data]|g]; simpl.
  - rewrite lookup_app_l; [done|]. by eapply lookup_lt_Some.
  - destruct (on_response_cases w data)
      as [->|(r' & fut & _ & _ & _ & ->)]; [done|].
    simpl. unfold set_result. repeat case_match; simpl; try done.
    rewrite list_lookup_insert_ne; [done|]. intros <-. congruence.
  - unfold cancel. repeat case_match; simpl; try done.
    rewrite list_lookup_insert_ne; [done|]. intros <-. congruence.
Qed.

Lemma cancelled_play w acts f :
  heap w !! f = Some Cancelled → heap (play w acts) !! f = Some Cancelled.
Proof.
  revert w. induction acts as [|a acts IH]; intros w Hf; [done|].
  simpl. by apply IH, cancelled_act.
Qed.

(** From a world of a run where [r] is registered for the pending future
    [f]: the caller gets the result of the first answer to [r], whatever
    else happens, other callers being cancelled included, as long as the
    caller itself is not cancelled and no later call is given the same
    id. *)
Lemma emit_result_play target acts r f post :
  let w := play (init target) acts in
  r ≠ "" → r ∉ call_ids (events post) → Cancel f ∉ post →
  _futures (self w) !! r = Some f → heap w !! f = Some Pending →
  emit_result (play w post) f = first_answer target r (events post).
Proof.
  revert acts. induction post as [|a post IH]; intros acts w Hne Hids Hc Hf Hp.
  { simpl. unfold emit_result. by rewrite Hp. }
  apply not_elem_of_cons in Hc as [Hca Hc].
  assert (_browser_client_id (self w) = target) as Htw
    by apply target_play.
  change (play w (a :: post)) with (play (act w a) post).
  assert (act w a = play (init target) (acts ++ [a])) as Hact
    by (by rewrite play_app).
  destruct a as [[r' verb data|data]|g]; simpl in Hids.
  - apply not_elem_of_cons in Hids as [Hrr Hids].
    change (first_answer target r (events (Ev (EvCall r' verb data) :: post)))
      with (first_answer target r (events post)).
    rewrite Hact. apply IH; try done; rewrite <- Hact; simpl.
    + by rewrite lookup_insert_ne.
    + rewrite lookup_app_l; [done|]. by eapply lookup_lt_Some.
  - change (first_answer target r (events (Ev (EvResponse data) :: post)))
      with (if answers target r data then Some (dict_get "result" data)
            else first_answer target r (events post)).
    destruct (answers target r data) eqn:Hans.
    + unfold answers in Hans. apply andb_true_iff in Hans as [Ht Hr].
      destruct (dict_get "req_id" data) as [| | |s| | | | |] eqn:Hs;
        try done.
      apply String.eqb_eq in Hr as ->.
      unfold emit_result.
      rewrite (done_play _ post f (dict_get "result" data)); [done|].
      simpl. rewrite (on_response_registered w data r f)
        by (rewrite ?Htw; done).
      simpl. apply list_lookup_insert_eq. by eapply lookup_lt_Some.
    + rewrite Hact. apply IH; try done; rewrite <- Hact; simpl.
      * destruct (on_response_cases w data)
          as [->|(r' & fut & Ht & Hid & _ & ->)]; [done|].
        simpl. rewrite lookup_delete_ne; [done|]. intros ->.
        unfold answers in Hans. rewrite Htw in Ht.
        rewrite Ht, Hid in Hans. simpl in Hans.
        by rewrite String.eqb_refl in Hans.
      * destruct (on_response_cases w data)
          as [->|(r' & fut & Ht & Hid & Hfut & ->)]; [done|].
        simpl. rewrite set_result_ne; [done|]. intros ->.
        destruct (registered_play target acts r fut Hf) as (Hid1 & _).
        destruct (registered_play target acts r' fut Hfut) as (Hid2 & _).
        assert (r = r') as <- by congruence.
        unfold answers in Hans. rewrite Htw in Ht.
        rewrite Ht, Hid in Hans. simpl in Hans.
        by rewrite String.eqb_refl in Hans.
  - change (events (Cancel g :: post)) with (events post).
    rewrite Hact. apply IH; try done; rewrite <- Hact; simpl.
    + by rewrite self_cancel.
    + unfold cancel. repeat case_match; simpl; try done.
      rewrite list_lookup_insert_ne; [done|]. intros <-. by destruct Hca.
Qed.

(** Callers that are cancelled do not disturb the others.  For every
    call of a run with cancellations, as long as the caller itself is not
    cancelled it receives the 'result' of the first response for this
    manager that carries the id generated for the call (ids as uuid4
    draws them: not empty, not drawn again later), whichever other
    callers are cancelled and whatever the handler raised on the way.
    And a caller that was cancelled never receives a result: the future
    stays cancelled, whatever responses follow. *)
Theorem caller_not_cancelled_gets_matching_result :
  (∀ target pre r verb data post,
     r ≠ "" → r ∉ call_ids (events post) →
     Cancel (issued (events pre)) ∉ post →
     emit_result
       (play (init target) (pre ++ Ev (EvCall r verb data) :: post))
       (issued (events pre))
     = first_answer target r (events post))
  ∧ (∀ w f acts,
       emit_cancelled w f = true →
       emit_cancelled (play w acts) f = true
       ∧ emit_result (play w acts) f = None).
Proof.
  split.
  - intros target pre r verb data post Hne Hids Hc.
    replace (pre ++ Ev (EvCall r verb data) :: post)
      with ((pre ++ [Ev (EvCall r verb data)]) ++ post)
      by (by rewrite <- app_assoc).
    rewrite play_app.
    assert (issued (events pre) = length (heap (play (init target) pre)))
      as Hlen by (by rewrite length_heap_play).
    apply emit_result_play; try done.
    + rewrite play_app. simpl. rewrite lookup_insert_eq. by rewrite Hlen.
    + rewrite play_app. simpl.
      by rewrite Hlen, lookup_app_r, Nat.sub_diag.
  - intros w f acts Hcan. unfold emit_cancelled, emit_result in *.
    destruct (heap w !! f) as [[| |]|] eqn:Hf; try done.
    by rewrite (cancelled_play w acts f Hf).
Qed.

Lemma caller_not_cancelled_gets_matching_result_witness :
  let acts :=
    [ Ev (EvCall "1" "page_title" ∅);
      Ev (EvCall "2" "page_content" ∅);
      Cancel 1;
      Ev (EvResponse (reply (Some "T") (PStr "2") (PStr "<html>")));
      Ev (EvResponse (reply (Some "T") (PStr "1") (PStr "Title"))) ] in
  emit_result (play (init (Some "T")) acts) 0 = Some (PStr "Title")
  ∧ emit_cancelled (play (init (Some "T")) acts) 1 = true
  ∧ emit_result (play (init (Some "T")) acts) 1 = None.
Proof.
  intros acts.
  destruct caller_not_cancelled_gets_matching_result as [Hres Hcan].
  split.
  - refine (Hres (Some "T") [] "1" "page_title" ∅ _ _ _ _).
    + discriminate.
    + simpl. intros H. apply elem_of_cons in H as [H|H]; [discriminate|].
      by apply elem_of_nil in H.
    + intros H.
      repeat (apply elem_of_cons in H as [H|H]; [discriminate|]).
      by apply elem_of_nil in H.
  - refine (Hcan (play (init (Some "T")) (take 3 acts)) 1 (drop 3 acts) _).
    reflexivity.
Defined.

(** An entry stays as long as no response answers its id and no later
    call draws the id again. *)
Lemma registered_run w r f tr :
  r ∉ call_ids tr →
  first_answer (_browser_client_id (self w)) r tr = None →
  _futures (self w) !! r = Some f →
  _futures (self (run w tr)) !! r = Some f.
Proof.
  revert w. induction tr as [|ev tr IH]; intros w Hids Hans Hf; [done|].
  destruct ev as [r' verb data|data]; simpl in *.
  - apply not_elem_of_cons in Hids as [Hrr Hids].
    apply IH; [done|done|]. simpl. by rewrite lookup_insert_ne.
  - destruct (answers (_browser_client_id (self w)) r data) eqn:Hdata;
      [done|].
    apply IH; [done|by rewrite target_on_response|].
    destruct (on_response_cases w data)
      as [->|(r' & fut & Ht & Hid & _ & ->)]; [done|].
    simpl. rewrite lookup_delete_ne; [done|]. intros ->.
    unfold answers in Hdata. rewrite Ht, Hid in Hdata. simpl in Hdata.
    by rewrite String.eqb_refl in Hdata.
Qed.

(** The manager has no timeout and no cancellation: a call whose id no
    response carries stays registered, and its caller suspended, for as
    long as the run goes on. *)
Theorem unanswered_call_stays_registered target pre r verb data post :
  r ∉ call_ids post → first_answer target r post = None →
  let w := run (init target) (pre ++ EvCall r verb data :: post) in
  _futures (self w) !! r = Some (issued pre)
  ∧ emit_result w (issued pre) = None.
Proof.
  intros Hids Hans w.
  assert (_futures (self w) !! r = Some (issued pre)) as Hf.
  { unfold w. rewrite run_app.
    change (run (run (init target) pre) (EvCall r verb data :: post))
      with (run (emit_send (run (init target) pre) r verb data).1 post).
    apply registered_run; [done| |].
    - by rewrite target_emit_send, target_run.
    - simpl. rewrite lookup_insert_eq. f_equal.
      by rewrite length_heap_run. }
  split; [done|].
  destruct (inv_reachable target (pre ++ EvCall r verb data :: post))
    as [Hp _].
  unfold emit_result. fold w in Hp. by rewrite (Hp _ _ Hf).
Qed.

Lemma unanswered_call_stays_registered_witness :
  let w := run (init (Some "T"))
             ([] ++ EvCall "1" "page_title" ∅
                 :: [EvResponse (reply (Some "U") (PStr "1") (PStr "x"));
                     EvResponse (reply (Some "T") (PStr "2") (PStr "y"))]) in
  _futures (self w) !! "1" = Some (issued [])
  ∧ emit_result w (issued []) = None.
Proof.
  apply (unanswered_call_stays_registered (Some "T") [] "1" "page_title" ∅).
  - simpl. apply not_elem_of_nil.
  - reflexivity.
Defined.

(** An unresolved future that is registered under no id stays so. *)
Lemma orphan_step w ev f :
  heap w !! f = Some Pending → (∀ r, _futures (self w) !! r ≠ Some f) →
  heap (step w ev) !! f = Some Pending
  ∧ ∀ r, _futures (self (step w ev)) !! r ≠ Some f.
Proof.
  intros Hf Hno. destruct ev as [r' verb data|data]; simpl.
  - split.
    + rewrite lookup_app_l; [done|]. by eapply lookup_lt_Some.
    + intros r. rewrite lookup_insert. case_decide; [|apply Hno].
      intros [= Heq]. apply lookup_lt_Some in Hf. lia.
  - destruct (on_response_cases w data)
      as [->|(r' & fut & _ & _ & Hfut & ->)]; [done|].
    simpl. split.
    + unfold set_result. repeat case_match; simpl; try done.
      rewrite list_lookup_insert_ne; [done|]. intros <-. by eapply Hno.
    + intros r. rewrite lookup_delete. case_decide; [done|apply Hno].
Qed.

Lemma orphan_run w tr f :
  heap w !! f = Some Pending → (∀ r, _futures (self w) !! r ≠ Some f) →
  heap (run w tr) !! f = Some Pending.
Proof.
  revert w. induction tr as [|ev tr IH]; intros w Hf Hno; [done|].
  simpl. destruct (orphan_step w ev f Hf Hno). by apply IH.
Qed.

(** [emit] does not check that the id it drew is free.  When a call
    draws the id of an earlier call that is still waiting, the entry of
    the earlier call is overwritten and its caller never receives
    anything, whatever responses follow. *)
Theorem id_collision_loses_first_call
    target pre r verb1 data1 mid verb2 data2 post :
  r ∉ call_ids mid → first_answer target r mid = None →
  emit_result
    (run (init target)
       (pre ++ EvCall r verb1 data1 :: mid ++ EvCall r verb2 data2 :: post))
    (issued pre)
  = None.
Proof.
  intros Hids Hans.
  replace (pre ++ EvCall r verb1 data1 :: mid ++ EvCall r verb2 data2 :: post)
    with ((pre ++ EvCall r verb1 data1 :: mid)
          ++ EvCall r verb2 data2 :: post)
    by (by rewrite <- app_assoc).
  rewrite run_app.
  destruct (unanswered_call_stays_registered target pre r verb1 data1 mid
              Hids Hans) as [Hf _].
  destruct (inv_reachable target (pre ++ EvCall r verb1 data1 :: mid))
    as [Hp Hi].
  set (w := run (init target) (pre ++ EvCall r verb1 data1 :: mid)) in *.
  change (run w (EvCall r verb2 data2 :: post))
    with (run (emit_send w r verb2 data2).1 post).
  unfold emit_result. rewrite (orphan_run _ post (issued pre)); [done| |].
  - simpl. rewrite lookup_app_l; [by apply Hp in Hf|].
    by eapply lookup_lt_Some, Hp.
  - intros r'. simpl. rewrite lookup_insert. case_decide as Hr.
    + intros [= Heq]. apply Hp, lookup_lt_Some in Hf. lia.
    + intros Hf'. apply Hr. by eapply Hi.
Qed.

Lemma id_collision_loses_first_call_witness :
  emit_result
    (run (init (Some "T"))
       ([] ++ EvCall "1" "page_title" ∅
           :: [] ++ EvCall "1" "page_content" ∅
           :: [EvResponse (reply (Some "T") (PStr "1") (PStr "x"));
               EvResponse (reply (Some "T") (PStr "1") (PStr "y"))]))
    (issued [])
  = None.
Proof.
  apply (id_collision_loses_first_call (Some "T") [] "1" "page_title" ∅ []).
  - apply not_elem_of_nil.
  - reflexivity.
Defined.

Lemma eq_target_of_opt target : eq_target (of_opt target) target = true.
Proof. destruct target as [t|]; simpl; [apply String.eqb_refl|done]. Qed.

(** [emit] and the handler fit together: the message [emit] hands to the
    transport carries the id it drew where the peer reads it, also when
    the caller's payload has a 'req_id' of its own, and the peer's reply
    to that id resolves the call with the reply's result. *)
Theorem reply_to_sent_message_resolves_call target tr r verb data result :
  r ≠ "" →
  let w := (emit_send (run (init target) tr) r verb data).1 in
  ∃ msg,
    last (wire w) = Some msg
    ∧ sent_req_id target msg = PStr r
    ∧ emit_result
        (_on_response w (reply target (sent_req_id target msg) result)).1
        (issued tr)
      = Some result.
Proof.
  intros Hne w.
  set (w0 := run (init target) tr) in *.
  assert (_browser_client_id (self w0) = target) as Htw by apply target_run.
  assert (dict_merge data {[ "req_id" := PStr r ]} !! "req_id"
          = Some (PStr r)) as Hmerge.
  { unfold dict_merge. apply lookup_union_Some_l. by simplify_map_eq. }
  eexists. split; [unfold w; simpl; apply last_snoc|].
  assert (sent_req_id target
            (if truthy (of_opt (_browser_client_id (self w0))) then
               ("browser_command",
                PDict (<["browser_client_id" :=
                           of_opt (_browser_client_id (self w0))]>
                         (<["command" := PStr verb]>
                            (<["data" :=
                                 PDict (<["target_browser_client_id" :=
                                            of_opt (_browser_client_id (self w0))]>
                                          (dict_merge data
                                             {[ "req_id" := PStr r ]}))]> ∅))))
             else (verb, PDict (dict_merge data {[ "req_id" := PStr r ]})))
          = PStr r) as Hid.
  { rewrite Htw. unfold sent_req_id.
    destruct (truthy (of_opt target)) eqn:Htr; simpl.
    - unfold dict_get at 1. simplify_map_eq.
      unfold dict_get. rewrite lookup_insert_ne by done. by rewrite Hmerge.
    - unfold dict_get. by rewrite Hmerge. }
  split; [exact Hid|]. rewrite Hid.
  destruct (inv_emit_send w0 r verb data (inv_reachable target tr))
    as [Hp _].
  assert (_futures (self w) !! r = Some (issued tr)) as Hf.
  { unfold w. simpl. rewrite lookup_insert_eq. f_equal.
    unfold w0. by rewrite length_heap_run. }
  rewrite (on_response_registered w (reply target (PStr r) result) r
             (issued tr)); [| | |done|done|exact (Hp _ _ Hf)].
  - unfold emit_result. simpl.
    rewrite list_lookup_insert_eq; [done|].
    eapply lookup_lt_Some, (Hp _ _ Hf).
  - unfold reply, dict_get. simplify_map_eq.
    replace (_browser_client_id (self w0)) with target.
    apply eq_target_of_opt.
  - unfold reply, dict_get. by simplify_map_eq.
Qed.

Lemma reply_to_sent_message_resolves_call_witness :
  let w := (emit_send (run (init (Some "T")) []) "1" "page_title"
              {[ "req_id" := PStr "mine" ]}).1 in
  ∃ msg,
    last (wire w) = Some msg
    ∧ sent_req_id (Some "T") msg = PStr "1"
    ∧ emit_result
        (_on_response w (reply (Some "T") (sent_req_id (Some "T") msg)
                           (PStr "Title"))).1
        (issued [])
      = Some (PStr "Title").
Proof.
  apply (reply_to_sent_message_resolves_call (Some "T") [] "1").
  discriminate.
Defined.

End ManagerRuns.

(** ** Session setup, the other paths *)
Section SessionPaths.
Import SocketBrowser.
#[local] Open Scope list_scope.

Lemma all_ops_try_except {A} (P : op → Prop) (body handler : prog A) :
  all_ops P body → all_ops P handler →
  all_ops P (try_except_TypeError body handler).
Proof.
  intros Hb Hh. induction Hb as [a|e|o k Ho _ IH]; simpl.
  - constructor.
  - destruct (is_TypeError e); [done|constructor].
  - constructor; [done|]. intros r. apply IH.
Qed.

Lemma setup_inline_auth_witness :
  let self := __init__ (BrowserConfig.Build None (Some "ws://cdp") None)
                       "python_1700000000000_abcdefghi" 0 in
  exec (setup self) [Ok PNone; Ok (PStr "1.2.3")]
  = ([ SioConnect (PStr "ws://cdp") (Some (auth_data self));
       ReqEmit 0 "get_version" ∅ ],
     Returned (Build (_config self) (_python_client_id self) 0 []
                     (PStr "1.2.3"))).
Proof.
  intros self.
  refine (setup_inline_auth self "ws://cdp" PNone (PStr "1.2.3") _ _).
  - reflexivity.
  - discriminate.
Defined.

Lemma setup_connect_error_witness :
  let self := __init__ (BrowserConfig.Build (Some "wss://host") None None)
                       "python_1700000000000_abcdefghi" 0 in
  exec (setup self) [Err (OtherError "ConnectionError"); Ok PNone]
  = ([SioConnect (PStr "wss://host") (Some (auth_data self))],
     Raised (OtherError "ConnectionError")).
Proof.
  intros self.
  refine (setup_connect_error self "wss://host" _ [Ok PNone] _ _ _).
  - reflexivity.
  - discriminate.
  - reflexivity.
Defined.

(** Whatever the environment answers, [setup] performs nothing but: the
    connect with the inline payload, the bare connect, the 'client_auth'
    emission with that payload, and the 'get_version' call with an empty
    payload.  Both connects go to [wss_url] when it is set, and to
    [cdp_url] otherwise. *)
Theorem setup_operations self answers o :
  let wss := BrowserConfig.wss_url (_config self) in
  let cdp := BrowserConfig.cdp_url (_config self) in
  let url := of_opt (if truthy (of_opt wss) then wss else cdp) in
  o ∈ (exec (setup self) answers).1 →
  o = SioConnect url (Some (auth_data self))
  ∨ o = SioConnect url None
  ∨ o = SioEmit "client_auth" (auth_data self)
  ∨ o = ReqEmit (_req self) "get_version" ∅.
Proof.
  intros wss cdp url Ho.
  apply (all_ops_exec
           (λ o, o = SioConnect url (Some (auth_data self))
                 ∨ o = SioConnect url None
                 ∨ o = SioEmit "client_auth" (auth_data self)
                 ∨ o = ReqEmit (_req self) "get_version" ∅)
           (setup self) answers o); [|done].
  unfold setup, opt_or. fold wss cdp url.
  destruct (negb (truthy url)); [constructor|].
  apply all_ops_bind.
  - apply all_ops_try_except.
    + apply all_ops_perform. by left.
    + apply all_ops_bind; [apply all_ops_perform; by right; left|].
      intros _. apply all_ops_perform. by right; right; left.
  - intros _. apply all_ops_bind; [apply all_ops_perform; by do 3 right|].
    intros version. constructor.
Qed.

Lemma setup_operations_witness :
  let self := __init__ (BrowserConfig.Build (Some "") (Some "ws://cdp") None)
                       "python_1700000000000_abcdefghi" 0 in
  SioConnect (PStr "ws://cdp") None
  = SioConnect (PStr "ws://cdp") (Some (auth_data self))
  ∨ SioConnect (PStr "ws://cdp") None = SioConnect (PStr "ws://cdp") None
  ∨ SioConnect (PStr "ws://cdp") None = SioEmit "client_auth" (auth_data self)
  ∨ SioConnect (PStr "ws://cdp") None = ReqEmit 0 "get_version" ∅.
Proof.
  intros self.
  apply (setup_operations self [Err (TypeError "auth"); Ok PNone]).
  simpl. apply elem_of_cons. right. apply elem_of_cons. by left.
Defined.

(** Only a [TypeError] of the first connect is handled.  Any exception
    of the bare connect, of the 'client_auth' emission or of the
    'get_version' call ends [setup] with that exception, a [TypeError]
    included, and nothing is performed after it. *)
Theorem setup_errors_propagate self url msg a1 a2 e :
  opt_or (BrowserConfig.wss_url (_config self))
         (BrowserConfig.cdp_url (_config self)) = Some url →
  url ≠ "" →
  let connect_auth := SioConnect (PStr url) (Some (auth_data self)) in
  let connect := SioConnect (PStr url) None in
  let client_auth := SioEmit "client_auth" (auth_data self) in
  let get_version := ReqEmit (_req self) "get_version" ∅ in
  (∀ answers,
     exec (setup self) (Err (TypeError msg) :: Err e :: answers)
     = ([connect_auth; connect], Raised e))
  ∧ (∀ answers,
       exec (setup self) (Err (TypeError msg) :: Ok a1 :: Err e :: answers)
       = ([connect_auth; connect; client_auth], Raised e))
  ∧ (∀ answers,
       exec (setup self)
            (Err (TypeError msg) :: Ok a1 :: Ok a2 :: Err e :: answers)
       = ([connect_auth; connect; client_auth; get_version], Raised e))
  ∧ (∀ answers,
       exec (setup self) (Ok a1 :: Err e :: answers)
       = ([connect_auth; get_version], Raised e)).
Proof.
  intros Hurl Hne. unfold setup. rewrite Hurl. simpl.
  destruct (String.eqb_spec url "") as [?|_]; [done|]. simpl.
  by split_and!.
Qed.

Lemma setup_errors_propagate_witness :
  let self := __init__ (BrowserConfig.Build (Some "wss://host") None None)
                       "python_1700000000000_abcdefghi" 0 in
  exec (setup self) (Ok PNone :: Err (TypeError "bad version") :: [])
  = ([SioConnect (PStr "wss://host") (Some (auth_data self));
      ReqEmit 0 "get_version" ∅],
     Raised (TypeError "bad version")).
Proof.
  intros self.
  refine (proj2 (proj2 (proj2
            (setup_errors_propagate self "wss://host" "" PNone PNone
               (TypeError "bad version") _ _))) []).
  - reflexivity.
  - discriminate.
Defined.

(** When [setup] returns, its last operation was the 'get_version'
    call, and the browser differs from the one it was called on in its
    version only, which is the answer to that call; the [version]
    property reads '' before [setup], and afterwards that answer unless
    it is falsy, in which case '' again. *)
Theorem setup_sets_version_only self answers ops self' :
  exec (setup self) answers = (ops, Returned self') →
  ∃ n v,
    length ops = S n
    ∧ ops !! n = Some (ReqEmit (_req self) "get_version" ∅)
    ∧ answers !! n = Some (Ok v)
    ∧ self' = Build (_config self) (_python_client_id self) (_req self)
                    (_contexts self) v
    ∧ version self' = (if truthy v then v else PStr "")
    ∧ version (__init__ (_config self) (_python_client_id self) (_req self))
      = PStr "".
Proof.
  unfold setup.
  destruct (negb (truthy _)); [done|]. simpl.
  destruct answers as [|[a1|e1] answers]; [done| |]; simpl.
  - destruct answers as [|[v|e] answers]; [done| |done]; simpl.
    intros [= <- <-]. by exists 1, v.
  - destruct (is_TypeError e1); [|done]. simpl.
    destruct answers as [|[a2|e2] answers]; [done| |done]; simpl.
    destruct answers as [|[a3|e3] answers]; [done| |done]; simpl.
    destruct answers as [|[v|e] answers]; [done| |done]; simpl.
    intros [= <- <-]. by exists 3, v.
Qed.

Lemma setup_sets_version_only_witness :
  let self := __init__ (BrowserConfig.Build (Some "wss://host") None None)
                       "python_1700000000000_abcdefghi" 0 in
  let answers := [Ok (PStr "connected"); Ok (PStr "1.2.3")] in
  let ops := [SioConnect (PStr "wss://host") (Some (auth_data self));
              ReqEmit 0 "get_version" ∅] in
  ∃ n v,
    length ops = S n
    ∧ ops !! n = Some (ReqEmit (_req self) "get_version" ∅)
    ∧ answers !! n = Some (Ok v)
    ∧ Build (_config self) (_python_client_id self) 0 [] (PStr "1.2.3")
      = Build (_config self) (_python_client_id self) (_req self)
              (_contexts self) v
    ∧ version (Build (_config self) (_python_client_id self) 0 []
                     (PStr "1.2.3"))
      = (if truthy v then v else PStr "")
    ∧ version (__init__ (_config self) (_python_client_id self) (_req self))
      = PStr "".
Proof.
  intros self answers ops.
  apply (setup_sets_version_only self answers ops).
  reflexivity.
Defined.

(** [set_target_browser_client] cannot rebind the routing target: the
    class of the request manager has no method of that name, so the call
    raises at the attribute lookup, before anything is performed; and
    nothing else changes the target, which is in every world of a run
    the one the manager was built with. *)
Theorem routing_target_cannot_be_rebound :
  (∀ self browser_client_id answers,
     ∃ msg,
       exec (set_target_browser_client self browser_client_id) answers
       = ([], Raised (OtherError msg)))
  ∧ (∀ self tr,
       SocketRequestManager._browser_client_id
         (SocketRequestManager.self
            (SocketRequestManager.run (request_manager self) tr))
       = BrowserConfig.browser_client_id (_config self)).
Proof.
  split.
  - intros self browser_client_id answers. by eexists.
  - intros self tr. by rewrite target_run.
Qed.

End SessionPaths.

(** ** Handles, class by class *)
Section HandleRequests.
#[local] Open Scope list_scope.

(** Walks through a coroutine down to the operations it performs. *)
Ltac steps :=
  repeat first
    [ apply all_ops_perform | apply all_ops_Ret | apply all_ops_Raise
    | apply all_ops_lift | apply all_ops_void | apply all_ops_bind
    | intro | case_match ].

Lemma page_requests page m :
  all_ops (λ o, ∃ verb data,
             o = ReqEmit (SocketPage._req page) verb data
             ∧ data !! "page_id" = Some (SocketPage._page_id page))
          (SocketPage.invoke page m).
Proof.
  destruct m; simpl;
    unfold SocketPage.goto, SocketPage.click, SocketPage.fill,
      SocketPage.get_content, SocketPage.screenshot, SocketPage.close,
      SocketPage.evaluate, SocketPage.wait_for_load_state,
      SocketPage.set_viewport_size, SocketPage.on,
      SocketPage.remove_listener, SocketPage.url, SocketPage.is_closed,
      SocketPage.bring_to_front, SocketPage.expose_function,
      SocketPage.go_back, SocketPage.go_forward,
      SocketPage.wait_for_selector, SocketPage.content, SocketPage.title,
      SocketPage.frames, SocketPage.query_selector,
      SocketPage.query_selector_all, SocketPage.emulate_media,
      SocketPage.pdf, SocketPage.viewport_size, SocketPage.reload,
      SocketPage.get_property, SocketPage.expect_download, SocketPage.type,
      SocketPage.wait_for_timeout;
    steps; eexists _, _; (split; [reflexivity|]); by simplify_map_eq.
Qed.

(** Every request of every method of a [SocketPage] goes through the
    page's request manager and carries the page's id under 'page_id'; so
    do the requests of the keyboard and of the mouse of the page.  The
    methods [on], [remove_listener], [expose_function] and the properties
    [url], [is_closed], [viewport_size] perform nothing. *)
Theorem page_requests_carry_page_id page :
  let req := SocketPage._req page in
  let page_id := SocketPage._page_id page in
  (∀ m answers,
     forwards req "page_id" page_id
              (exec (SocketPage.invoke page m) answers).1)
  ∧ (∀ keys text delay x y answers,
       forwards req "page_id" page_id
         (exec (SocketKeyboard.press (SocketPage.keyboard page) keys)
               answers).1
       ∧ forwards req "page_id" page_id
           (exec (SocketKeyboard.type (SocketPage.keyboard page) text delay)
                 answers).1
       ∧ forwards req "page_id" page_id
           (exec (SocketMouse.move (SocketPage.mouse page) x y) answers).1
       ∧ forwards req "page_id" page_id
           (exec (SocketMouse.down (SocketPage.mouse page)) answers).1
       ∧ forwards req "page_id" page_id
           (exec (SocketMouse.up (SocketPage.mouse page)) answers).1)
  ∧ (∀ event handler name func answers,
       (exec (SocketPage.on page event handler) answers).1 = []
       ∧ (exec (SocketPage.remove_listener page event handler) answers).1 = []
       ∧ (exec (SocketPage.expose_function page name func) answers).1 = []
       ∧ exec (SocketPage.is_closed page) answers
         = ([], Returned (PBool false))
       ∧ exec (SocketPage.viewport_size page) answers
         = ([], Returned PNone)).
Proof.
  intros req page_id. split_and!.
  - intros m answers o Ho.
    exact (all_ops_exec _ _ _ _ (page_requests page m) Ho).
  - intros keys text delay x y answers.
    split_and!; intros o Ho;
      (eapply (all_ops_exec
                 (λ o, ∃ verb data, o = ReqEmit req verb data
                                    ∧ data !! "page_id" = Some page_id));
       [|exact Ho]);
      unfold SocketKeyboard.press, SocketKeyboard.type, SocketMouse.move,
        SocketMouse.down, SocketMouse.up;
      steps; eexists _, _; (split; [reflexivity|]); by simplify_map_eq.
  - done.
Qed.

Lemma frame_requests frame m :
  all_ops (λ o, ∃ verb data,
             o = ReqEmit (SocketFrame._req frame) verb data
             ∧ data !! "frame_id" = Some (SocketFrame._frame_id frame))
          (SocketFrame.invoke frame m).
Proof.
  destruct m; simpl;
    unfold SocketFrame.url, SocketFrame.content, SocketFrame.evaluate,
      SocketFrame.query_selector, SocketFrame.query_selector_all,
      SocketFrame.click;
    steps; eexists _, _; (split; [reflexivity|]); by simplify_map_eq.
Qed.

(** Every request of a [SocketFrame] carries the frame's id under
    'frame_id'.  Only [content] sends the id of the owning page as well:
    the requests of [evaluate], [query_selector], [query_selector_all]
    and [click] have no 'page_id'. *)
Theorem frame_requests_carry_frame_id frame :
  let req := SocketFrame._req frame in
  (∀ m answers,
     forwards req "frame_id" (SocketFrame._frame_id frame)
              (exec (SocketFrame.invoke frame m) answers).1)
  ∧ (∀ answers,
       forwards req "page_id" (SocketFrame._page_id frame)
                (exec (SocketFrame.content frame) answers).1)
  ∧ (∀ m answers verb data,
       m ≠ SocketFrame.m_content →
       ReqEmit req verb data ∈ (exec (SocketFrame.invoke frame m) answers).1 →
       data !! "page_id" = None).
Proof.
  intros req. split_and!.
  - intros m answers o Ho.
    exact (all_ops_exec _ _ _ _ (frame_requests frame m) Ho).
  - intros answers o Ho.
    eapply (all_ops_exec
              (λ o, ∃ verb data, o = ReqEmit req verb data
                      ∧ data !! "page_id" = Some (SocketFrame._page_id frame)));
      [|exact Ho].
    unfold SocketFrame.content. steps.
    eexists _, _; (split; [reflexivity|]); by simplify_map_eq.
  - intros m answers verb data Hm Ho.
    assert (all_ops (λ o, ∀ verb data, o = ReqEmit req verb data →
                          data !! "page_id" = None)
                    (SocketFrame.invoke frame m)) as Hall.
    { destruct m; [| done | | | |]; simpl;
        unfold SocketFrame.url, SocketFrame.evaluate,
          SocketFrame.query_selector, SocketFrame.query_selector_all,
          SocketFrame.click;
        steps; simplify_eq; by simplify_map_eq. }
    exact (all_ops_exec _ _ _ _ Hall Ho verb data eq_refl).
Qed.

Lemma frame_requests_carry_frame_id_witness :
  let data : dict :=
    <["frame_id" := PStr "frame-1"]>
      (<["args" := PTuple []]> {[ "kwargs" := PDict ∅ ]}) in
  data !! "page_id" = None.
Proof.
  intros data.
  refine (proj2 (proj2 (frame_requests_carry_frame_id
                          (SocketFrame.Build 0 (PStr "frame-1")
                                             (PStr "page-1"))))
            (SocketFrame.m_click [] ∅) [] "frame_click" data _ _).
  - discriminate.
  - simpl. apply elem_of_cons. by left.
Defined.

(** A locator sends its query with every request: the parent id, the
    selector and the exact flag it was built with.  [select_option] is
    the exception: its keyword arguments are merged over the query, and a
    keyword named like a field replaces the field. *)
Theorem locator_requests_carry_query L :
  let req := SocketLocator._req L in
  (∀ m answers o,
     (∀ kwargs, m ≠ SocketLocator.m_select_option kwargs) →
     o ∈ (exec (SocketLocator.invoke L m) answers).1 →
     ∃ verb data,
       o = ReqEmit req verb data
       ∧ data !! "parent_id" = Some (SocketLocator._parent_id L)
       ∧ data !! "selector" = Some (SocketLocator._selector L)
       ∧ data !! "exact" = Some (SocketLocator._exact L))
  ∧ (∀ kwargs answers o,
       o ∈ (exec (SocketLocator.select_option L kwargs) answers).1 →
       ∃ data,
         o = ReqEmit req "locator_select_option" data
         ∧ data !! "parent_id"
           = Some (default (SocketLocator._parent_id L)
                           (kwargs !! "parent_id"))
         ∧ data !! "selector"
           = Some (default (SocketLocator._selector L)
                           (kwargs !! "selector"))
         ∧ data !! "exact"
           = Some (default (SocketLocator._exact L) (kwargs !! "exact"))
         ∧ ∀ k v, kwargs !! k = Some v → data !! k = Some v).
Proof.
  intros req.
  assert (∀ extra : dict,
            extra !! "parent_id" = None → extra !! "selector" = None →
            extra !! "exact" = None →
            dict_merge (SocketLocator.query L) extra !! "parent_id"
            = Some (SocketLocator._parent_id L)
            ∧ dict_merge (SocketLocator.query L) extra !! "selector"
              = Some (SocketLocator._selector L)
            ∧ dict_merge (SocketLocator.query L) extra !! "exact"
              = Some (SocketLocator._exact L)) as Hq.
  { intros extra H1 H2 H3. unfold dict_merge, SocketLocator.query.
    rewrite !lookup_union_r by done. by simplify_map_eq. }
  split.
  - intros m answers o Hm Ho.
    eapply (all_ops_exec
              (λ o, ∃ verb data,
                 o = ReqEmit req verb data
                 ∧ data !! "parent_id" = Some (SocketLocator._parent_id L)
                 ∧ data !! "selector" = Some (SocketLocator._selector L)
                 ∧ data !! "exact" = Some (SocketLocator._exact L)));
      [|exact Ho].
    destruct m; try (by destruct (Hm kwargs));
      cbn [SocketLocator.invoke];
      unfold fmap, prog_fmap,
        SocketLocator.evaluate_all, SocketLocator.count, SocketLocator.first,
        SocketLocator.element_handle, SocketLocator.click,
        SocketLocator.evaluate, SocketLocator.fill;
      steps; eexists _, _; (split; [reflexivity|]);
      first [ apply Hq; by simplify_map_eq
            | unfold SocketLocator.query; by simplify_map_eq ].
  - intros kwargs answers o Ho.
    eapply (all_ops_exec
              (λ o, ∃ data,
                 o = ReqEmit req "locator_select_option" data
                 ∧ data !! "parent_id"
                   = Some (default (SocketLocator._parent_id L)
                                   (kwargs !! "parent_id"))
                 ∧ data !! "selector"
                   = Some (default (SocketLocator._selector L)
                                   (kwargs !! "selector"))
                 ∧ data !! "exact"
                   = Some (default (SocketLocator._exact L)
                                   (kwargs !! "exact"))
                 ∧ ∀ k v, kwargs !! k = Some v → data !! k = Some v));
      [|exact Ho].
    unfold SocketLocator.select_option. apply all_ops_perform.
    eexists. split; [reflexivity|]. unfold dict_merge, SocketLocator.query.
    split_and!.
    + rewrite lookup_union. destruct (kwargs !! "parent_id"); by simplify_map_eq.
    + rewrite lookup_union. destruct (kwargs !! "selector"); by simplify_map_eq.
    + rewrite lookup_union. destruct (kwargs !! "exact"); by simplify_map_eq.
    + intros k v Hk. by apply lookup_union_Some_l.
Qed.

Lemma locator_requests_carry_query_witness :
  let L := SocketLocator.Build 0 (PStr "page-1") (PStr "#list")
                               (PBool false) (PStr "page-1") in
  (∃ verb data,
     ReqEmit 0 "locator_count" (SocketLocator.query L)
     = ReqEmit 0 verb data
     ∧ data !! "parent_id" = Some (PStr "page-1")
     ∧ data !! "selector" = Some (PStr "#list")
     ∧ data !! "exact" = Some (PBool false))
  ∧ ∃ data,
      ReqEmit 0 "locator_select_option"
        (dict_merge (SocketLocator.query L) {[ "selector" := PStr "#other" ]})
      = ReqEmit 0 "locator_select_option" data
      ∧ data !! "selector" = Some (PStr "#other").
Proof.
  intros L. split.
  - apply (proj1 (locator_requests_carry_query L) SocketLocator.m_count []).
    + discriminate.
    + simpl. apply elem_of_cons. by left.
  - destruct (proj2 (locator_requests_carry_query L)
                {[ "selector" := PStr "#other" ]} []
                (ReqEmit 0 "locator_select_option"
                   (dict_merge (SocketLocator.query L)
                      {[ "selector" := PStr "#other" ]})))
      as (data & Hdata & _ & Hsel & _).
    + simpl. apply elem_of_cons. by left.
    + exists data. split; [exact Hdata|exact Hsel].
Defined.

(** [SocketTracing] merges its keyword arguments over the context id: the
    request carries the context's id under 'context_id' unless a keyword
    of that name is passed, which then goes out in its place. *)
Theorem tracing_kwargs_override_context_id ctx kwargs answers o :
  let tracing := SocketContext.tracing ctx in
  o ∈ (exec (SocketTracing.start tracing kwargs) answers).1
  ∨ o ∈ (exec (SocketTracing.stop tracing kwargs) answers).1 →
  ∃ verb data,
    o = ReqEmit (SocketContext._req ctx) verb data
    ∧ data !! "context_id"
      = Some (default (SocketContext._ctx_id ctx) (kwargs !! "context_id"))
    ∧ ∀ k v, kwargs !! k = Some v → data !! k = Some v.
Proof.
  intros tracing Ho.
  assert (∀ p, (p = SocketTracing.start tracing kwargs
                ∨ p = SocketTracing.stop tracing kwargs) →
            all_ops (λ o, ∃ verb data,
                       o = ReqEmit (SocketContext._req ctx) verb data
                       ∧ data !! "context_id"
                         = Some (default (SocketContext._ctx_id ctx)
                                         (kwargs !! "context_id"))
                       ∧ ∀ k v, kwargs !! k = Some v → data !! k = Some v) p)
    as Hall.
  { intros p [->| ->]; unfold SocketTracing.start, SocketTracing.stop;
      apply all_ops_void, all_ops_perform; eexists _, _;
      (split; [reflexivity|]); unfold dict_merge; simpl; split.
    all: try (rewrite lookup_union;
              destruct (kwargs !! "context_id"); by simplify_map_eq).
    all: intros k v Hk; by apply lookup_union_Some_l. }
  destruct Ho as [Ho|Ho];
    refine (all_ops_exec _ _ _ _ (Hall _ _) Ho); auto.
Qed.

Lemma tracing_kwargs_override_context_id_witness :
  let ctx := SocketContext.Build 0 (PStr "ctx-1") [] in
  ∃ verb data,
    ReqEmit 0 "tracing_start"
      (dict_merge {[ "context_id" := PStr "ctx-1" ]}
                  {[ "context_id" := PStr "ctx-2" ]})
    = ReqEmit (SocketContext._req ctx) verb data
    ∧ data !! "context_id"
      = Some (default (SocketContext._ctx_id ctx)
                (({[ "context_id" := PStr "ctx-2" ]} : dict) !! "context_id"))
    ∧ ∀ k v, ({[ "context_id" := PStr "ctx-2" ]} : dict) !! k = Some v →
             data !! k = Some v.
Proof.
  intros ctx.
  apply (tracing_kwargs_override_context_id ctx
           {[ "context_id" := PStr "ctx-2" ]} []).
  left. simpl. apply elem_of_cons. by left.
Defined.

(** [SocketPage.locator] and [SocketFrame.locator] (and their
    [frame_locator]) pass the page id as the fourth positional argument
    of [SocketLocator], which is [exact]: the locator they build has the
    page id as its exact flag and no page id.  Its requests carry the
    page id under 'exact', and the element handles it resolves are built
    around a page id of None.  [get_by_text] passes both by keyword, and
    its locator has the page id. *)
Theorem locator_of_page_has_no_page_id page selector :
  let req := SocketPage._req page in
  let page_id := SocketPage._page_id page in
  let L := SocketPage.locator page selector in
  L = SocketLocator.Build req page_id selector page_id PNone
  ∧ SocketPage.frame_locator page selector = L
  ∧ (∀ frame,
       SocketFrame.locator frame selector
       = SocketLocator.Build (SocketFrame._req frame)
           (SocketFrame._frame_id frame) selector
           (SocketFrame._page_id frame) PNone
       ∧ SocketFrame.frame_locator frame selector
         = SocketFrame.locator frame selector)
  ∧ (∀ el_id,
       truthy el_id = true →
       exec (SocketLocator.first L) [Ok el_id]
       = ([ReqEmit req "locator_first"
             (<["parent_id" := page_id]>
                (<["selector" := selector]> {[ "exact" := page_id ]}))],
          Returned (Some (SocketElementHandle.Build req el_id PNone)))
       ∧ exec (SocketLocator.element_handle L) [Ok el_id]
         = ([ReqEmit req "locator_element_handle"
               (<["parent_id" := page_id]>
                  (<["selector" := selector]> {[ "exact" := page_id ]}))],
            Returned (Some (SocketElementHandle.Build req el_id PNone))))
  ∧ (∀ text exact,
       SocketPage.get_by_text page text exact
       = SocketLocator.Build req page_id (PStr (String.append "text=" text))
                             exact page_id).
Proof.
  intros req page_id L. split_and!; try done.
  intros el_id Htruthy. unfold SocketLocator.first,
    SocketLocator.element_handle. simpl. by rewrite Htruthy.
Qed.

Lemma locator_of_page_has_no_page_id_witness :
  let page := SocketPage.Build 0 (PStr "page-1") in
  exec (SocketLocator.first (SocketPage.locator page (PStr "#go")))
       [Ok (PStr "el-1")]
  = ([ReqEmit 0 "locator_first"
        (<["parent_id" := PStr "page-1"]>
           (<["selector" := PStr "#go"]> {[ "exact" := PStr "page-1" ]}))],
     Returned (Some (SocketElementHandle.Build 0 (PStr "el-1") PNone))).
Proof.
  intros page.
  destruct (locator_of_page_has_no_page_id page (PStr "#go"))
    as (_ & _ & _ & Hfirst & _).
  apply (Hfirst (PStr "el-1")). reflexivity.
Defined.

(** [filter] builds its locator from the keywords alone: it keeps the
    request manager, the parent and the selector, takes [exact] and
    [page_id] from the keywords and resets them to False and None when
    they are not given; any other keyword is a [TypeError].  So
    [filter()] forgets the exact flag and the page id of the locator. *)
Theorem filter_resets_exact_and_page_id L kwargs :
  (dom kwargs ⊆ ({[ "exact"; "page_id" ]} : gset string) →
   SocketLocator.filter L kwargs
   = Ok (SocketLocator.Build (SocketLocator._req L)
           (SocketLocator._parent_id L) (SocketLocator._selector L)
           (default (PBool false) (kwargs !! "exact"))
           (default PNone (kwargs !! "page_id"))))
  ∧ (∀ k, k ∈ dom kwargs → k ≠ "exact" → k ≠ "page_id" →
          ∃ msg, SocketLocator.filter L kwargs = Err (TypeError msg))
  ∧ SocketLocator.filter L ∅
    = Ok (SocketLocator.Build (SocketLocator._req L)
            (SocketLocator._parent_id L) (SocketLocator._selector L)
            (PBool false) PNone).
Proof.
  unfold SocketLocator.filter, SocketLocator.__init__kw. split_and!.
  - intros Hdom. by rewrite bool_decide_eq_true_2.
  - intros k Hk He Hp. rewrite bool_decide_eq_false_2; [by eexists|].
    intros Hdom. apply Hdom in Hk.
    apply elem_of_union in Hk as [Hk|Hk]; by apply elem_of_singleton in Hk.
  - rewrite bool_decide_eq_true_2; [done|]. set_solver.
Qed.

Lemma filter_resets_exact_and_page_id_witness :
  let L := SocketLocator.Build 0 (PStr "page-1") (PStr "#list")
                               (PBool true) (PStr "page-1") in
  SocketLocator.filter L {[ "exact" := PBool true ]}
  = Ok (SocketLocator.Build 0 (PStr "page-1") (PStr "#list")
          (PBool true) PNone)
  ∧ ∃ msg, SocketLocator.filter L {[ "has_text" := PStr "x" ]}
           = Err (TypeError msg).
Proof.
  intros L.
  destruct (filter_resets_exact_and_page_id L {[ "exact" := PBool true ]})
    as (Hok & _ & _).
  destruct (filter_resets_exact_and_page_id L {[ "has_text" := PStr "x" ]})
    as (_ & Herr & _).
  split.
  - apply Hok. rewrite dom_singleton_L. set_solver.
  - apply (Herr "has_text"); [|discriminate|discriminate].
    rewrite dom_singleton_L. set_solver.
Defined.

(** [query_selector], on a page, a frame and an element, returns a
    handle exactly when the remote result is truthy: None, but also '', 0
    and False, mean "no element".  The handle is built around the result
    and the page id of the handle queried. *)
Theorem query_selector_none_on_falsy_result selector el_id :
  (∀ page,
     (exec (SocketPage.query_selector page selector) [Ok el_id]).2
     = Returned (if truthy el_id
                 then Some (SocketElementHandle.Build (SocketPage._req page)
                              el_id (SocketPage._page_id page))
                 else None))
  ∧ (∀ frame,
       (exec (SocketFrame.query_selector frame selector) [Ok el_id]).2
       = Returned (if truthy el_id
                   then Some (SocketElementHandle.Build
                                (SocketFrame._req frame) el_id
                                (SocketFrame._page_id frame))
                   else None))
  ∧ (∀ h,
       (exec (SocketElementHandle.query_selector h selector) [Ok el_id]).2
       = Returned (if truthy el_id
                   then Some (SocketElementHandle.Build
                                (SocketElementHandle._req h) el_id
                                (SocketElementHandle._page_id h))
                   else None))
  ∧ (truthy PNone = false ∧ truthy (PStr "") = false
     ∧ truthy (PInt 0) = false ∧ truthy (PBool false) = false).
Proof.
  split_and!; try done; intros x;
    unfold SocketPage.query_selector, SocketFrame.query_selector,
      SocketElementHandle.query_selector; simpl; by destruct (truthy el_id).
Qed.

(** [query_selector_all] and [frames] wrap a list of ids into handles one
    for one, in the order received, each with the page id of the handle
    queried.  A result of None is not "no elements": iterating it raises
    a [TypeError]. *)
Theorem query_selector_all_keeps_order page selector ids :
  let req := SocketPage._req page in
  let page_id := SocketPage._page_id page in
  (exec (SocketPage.query_selector_all page selector) [Ok (PList ids)]).2
  = Returned (map (λ eid, SocketElementHandle.Build req eid page_id) ids)
  ∧ (exec (SocketPage.frames page) [Ok (PList ids)]).2
    = Returned (map (λ fid, SocketFrame.Build req fid page_id) ids)
  ∧ (∀ frame,
       (exec (SocketFrame.query_selector_all frame selector)
             [Ok (PList ids)]).2
       = Returned (map (λ eid, SocketElementHandle.Build
                                 (SocketFrame._req frame) eid
                                 (SocketFrame._page_id frame)) ids))
  ∧ (∀ h,
       (exec (SocketElementHandle.query_selector_all h selector)
             [Ok (PList ids)]).2
       = Returned (map (λ eid, SocketElementHandle.Build
                                 (SocketElementHandle._req h) eid
                                 (SocketElementHandle._page_id h)) ids))
  ∧ (∃ msg,
       (exec (SocketPage.query_selector_all page selector) [Ok PNone]).2
       = Raised (TypeError msg))
  ∧ (∃ msg, (exec (SocketPage.frames page) [Ok PNone]).2
            = Raised (TypeError msg)).
Proof.
  intros req page_id. split_and!; try done; by eexists.
Qed.

Lemma pages_of_missing_id req items :
  Forall (λ item, ∃ page, item = PDict page) items →
  Exists (λ item, ∃ page, item = PDict page ∧ page !! "id" = None) items →
  SocketBrowser.pages_of req items = Err (KeyError "id").
Proof.
  induction items as [|item items IH]; intros Hdicts Hbad;
    [by inversion Hbad|].
  apply Forall_cons in Hdicts as [(page & ->) Hdicts].
  simpl. unfold dict_item.
  destruct (page !! "id") as [page_id|] eqn:Hid; [|done].
  rewrite IH; [done|done|].
  apply Exists_cons in Hbad as [(page' & [= <-] & Hnone)|Hbad]; [|done].
  congruence.
Qed.

(** [new_context] reads 'pages' before 'contextId' and checks nothing:
    a response that is not a dict raises a [TypeError]; a dict without
    'pages' raises [KeyError('pages')], also when 'contextId' is missing
    too; a page without 'id' raises [KeyError('id')]; with good pages, a
    missing 'contextId' raises [KeyError('contextId')].  In each case the
    one call has been made and no context is returned. *)
Theorem new_context_rejects_malformed_response self kwargs :
  let call := [ReqEmit (SocketBrowser._req self) "new_context" kwargs] in
  (∀ response,
     (∀ d, response ≠ PDict d) →
     ∃ msg, exec (SocketBrowser.new_context self kwargs) [Ok response]
            = (call, Raised (TypeError msg)))
  ∧ (∀ d,
       d !! "pages" = None →
       exec (SocketBrowser.new_context self kwargs) [Ok (PDict d)]
       = (call, Raised (KeyError "pages")))
  ∧ (∀ d items,
       d !! "pages" = Some (PList items) →
       Exists (λ item, ∃ page, item = PDict page ∧ page !! "id" = None)
              items →
       Forall (λ item, ∃ page, item = PDict page) items →
       exec (SocketBrowser.new_context self kwargs) [Ok (PDict d)]
       = (call, Raised (KeyError "id")))
  ∧ (∀ d items page_ids,
       d !! "pages" = Some (PList items) →
       Forall2 (λ item page_id,
                  ∃ page, item = PDict page ∧ page !! "id" = Some page_id)
               items page_ids →
       d !! "contextId" = None →
       exec (SocketBrowser.new_context self kwargs) [Ok (PDict d)]
       = (call, Raised (KeyError "contextId")))
  ∧ (∀ e answers,
       exec (SocketBrowser.new_context self kwargs) (Err e :: answers)
       = (call, Raised e)).
Proof.
  intros call. split_and!.
  - intros response Hnot. unfold SocketBrowser.new_context. simpl.
    destruct response; simpl; try (by eexists). by destruct (Hnot d).
  - intros d Hpages. unfold SocketBrowser.new_context. simpl.
    unfold dict_item. by rewrite Hpages.
  - intros d items Hpages Hbad Hdicts.
    unfold SocketBrowser.new_context. simpl. unfold dict_item.
    rewrite Hpages. simpl.
    by rewrite (pages_of_missing_id _ _ Hdicts Hbad).
  - intros d items page_ids Hpages Hitems Hctx.
    unfold SocketBrowser.new_context. simpl. unfold dict_item.
    rewrite Hpages. simpl. rewrite (pages_of_ids _ _ _ Hitems). simpl.
    by rewrite Hctx.
  - done.
Qed.

Lemma new_context_rejects_malformed_response_witness :
  let self := SocketBrowser.__init__
                (BrowserConfig.Build (Some "wss://host") None (Some "T"))
                "python_1700000000000_abcdefghi" 0 in
  (∃ msg, exec (SocketBrowser.new_context self ∅) [Ok PNone]
          = ([ReqEmit 0 "new_context" ∅], Raised (TypeError msg)))
  ∧ exec (SocketBrowser.new_context self ∅)
         [Ok (PDict {[ "contextId" := PStr "ctx-1" ]})]
    = ([ReqEmit 0 "new_context" ∅], Raised (KeyError "pages"))
  ∧ exec (SocketBrowser.new_context self ∅)
         [Ok (PDict {[ "pages" := PList [PDict ∅] ]})]
    = ([ReqEmit 0 "new_context" ∅], Raised (KeyError "id"))
  ∧ exec (SocketBrowser.new_context self ∅)
         [Ok (PDict {[ "pages" := PList [] ]})]
    = ([ReqEmit 0 "new_context" ∅], Raised (KeyError "contextId")).
Proof.
  intros self.
  destruct (new_context_rejects_malformed_response self ∅)
    as (Hnot & Hpages & Hid & Hctx & _).
  split_and!.
  - apply Hnot. discriminate.
  - apply Hpages. reflexivity.
  - apply (Hid _ [PDict ∅]); [reflexivity| |].
    + apply Exists_cons_hd. by exists ∅.
    + repeat constructor. by exists ∅.
  - apply (Hctx _ [] []); [reflexivity|constructor|reflexivity].
Defined.

(** [new_page] builds a page around whatever the remote side answers,
    None included, appends it to the pages of the context, and every
    request made on that page carries the answer under 'page_id'. *)
Theorem new_page_round_trip ctx page_id :
  let req := SocketContext._req ctx in
  ∃ ctx' page,
    exec (SocketContext.new_page ctx) [Ok page_id]
    = ([ReqEmit req "new_page"
          {[ "context_id" := SocketContext._ctx_id ctx ]}],
       Returned (ctx', page))
    ∧ page = SocketPage.Build req page_id
    ∧ SocketContext.pages ctx' = SocketContext.pages ctx ++ [page]
    ∧ SocketContext._ctx_id ctx' = SocketContext._ctx_id ctx
    ∧ ∀ m answers,
        forwards req "page_id" page_id
                 (exec (SocketPage.invoke page m) answers).1.
Proof.
  intros req. eexists _, _. split_and!; try reflexivity.
  intros m answers o Ho.
  exact (all_ops_exec _ _ _ _
           (page_requests (SocketPage.Build req page_id) m) Ho).
Qed.

(** A download is built around the id 'page_expect_download' answers
    with; [save_as] sends that id under 'download_id' with the path, and
    [suggested_filename] is the id itself, read without any request. *)
Theorem download_id_round_trip page args kwargs download_id path :
  let req := SocketPage._req page in
  ∃ download,
    exec (SocketPage.expect_download page args kwargs) [Ok download_id]
    = ([ReqEmit req "page_expect_download"
          (<["page_id" := SocketPage._page_id page]>
             (<["args" := PTuple args]> {[ "kwargs" := PDict kwargs ]}))],
       Returned download)
    ∧ exec (SocketDownload.save_as download path) []
      = ([ReqEmit req "download_save_as"
            (<["download_id" := download_id]> {[ "path" := path ]})],
         Suspended)
    ∧ (∀ answers,
         exec (SocketDownload.suggested_filename download) answers
         = ([], Returned download_id))
    ∧ (∀ answers,
         exec (SocketDownload.value download) answers
         = ([], Returned download)).
Proof.
  intros req. by eexists.
Qed.

(** The page id is threaded through the handles derived from a page: the
    frames of a page, the elements found in those frames and the elements
    found under those elements all hold the id of the page, and a click
    on such an element sends it with the element's own id. *)
Theorem page_id_is_threaded page frame_id selector el_id sub_id args kwargs :
  truthy el_id = true → truthy sub_id = true →
  let req := SocketPage._req page in
  let page_id := SocketPage._page_id page in
  ∃ frame el sub,
    (exec (SocketPage.frames page) [Ok (PList [frame_id])]).2
    = Returned [frame]
    ∧ (exec (SocketFrame.query_selector frame selector) [Ok el_id]).2
      = Returned (Some el)
    ∧ (exec (SocketElementHandle.query_selector el selector) [Ok sub_id]).2
      = Returned (Some sub)
    ∧ SocketFrame._page_id frame = page_id
    ∧ SocketElementHandle._page_id el = page_id
    ∧ SocketElementHandle._page_id sub = page_id
    ∧ exec (SocketElementHandle.click sub args kwargs) []
      = ([ReqEmit req "element_click"
            (<["element_id" := sub_id]>
               (<["page_id" := page_id]>
                  (<["args" := PTuple args]>
                     {[ "kwargs" := PDict kwargs ]})))],
         Suspended).
Proof.
  intros Hel Hsub req page_id.
  exists (SocketFrame.Build req frame_id page_id),
         (SocketElementHandle.Build req el_id page_id),
         (SocketElementHandle.Build req sub_id page_id).
  unfold SocketFrame.query_selector, SocketElementHandle.query_selector.
  simpl. rewrite Hel, Hsub. by split_and!.
Qed.

Lemma page_id_is_threaded_witness :
  let page := SocketPage.Build 0 (PStr "page-1") in
  ∃ frame el sub,
    (exec (SocketPage.frames page) [Ok (PList [PStr "frame-1"])]).2
    = Returned [frame]
    ∧ (exec (SocketFrame.query_selector frame (PStr "li"))
            [Ok (PStr "el-1")]).2
      = Returned (Some el)
    ∧ (exec (SocketElementHandle.query_selector el (PStr "li"))
            [Ok (PStr "el-2")]).2
      = Returned (Some sub)
    ∧ SocketFrame._page_id frame = PStr "page-1"
    ∧ SocketElementHandle._page_id el = PStr "page-1"
    ∧ SocketElementHandle._page_id sub = PStr "page-1"
    ∧ exec (SocketElementHandle.click sub [] ∅) []
      = ([ReqEmit 0 "element_click"
            (<["element_id" := PStr "el-2"]>
               (<["page_id" := PStr "page-1"]>
                  (<["args" := PTuple []]> {[ "kwargs" := PDict ∅ ]})))],
         Suspended).
Proof.
  intros page.
  apply (page_id_is_threaded page (PStr "frame-1") (PStr "li")
           (PStr "el-1") (PStr "el-2") [] ∅); reflexivity.
Defined.

End HandleRequests.

(** ** Screenshots, the error paths *)
Section ScreenshotErrors.
Import Base64 SocketPage.
#[local] Open Scope list_scope.

(** The decoder's loop raises nothing but [binascii.Error]. *)
Lemma a2b_loop_error ascii_data :
  ∀ quad_pos leftchar pads bin_data e,
    a2b_loop ascii_data quad_pos leftchar pads bin_data = Err e →
    is_ValueError e = true.
Proof.
  induction ascii_data as [|b rest IH];
    intros quad_pos leftchar pads bin_data e; cbn [a2b_loop].
  - destruct quad_pos as [|[|q]]; [done|by intros [= <-]..].
  - repeat case_match; try done; apply IH.
Qed.

Lemma b64decode_error s e : b64decode s = Err e → is_ValueError e = true.
Proof.
  unfold b64decode, a2b_base64. case_match; [apply a2b_loop_error|].
  by intros [= <-].
Qed.

(** What the pattern matches, as strings. *)
Lemma data_url_re_matches_str s gs :
  Re.re_match data_url_re (chars s) = Some gs →
  ∃ subtype payload,
    s = data_url subtype payload
    ∧ subtype ≠ "" ∧ ";"%char ∉ chars subtype.
Proof.
  intros Hm.
  apply data_url_re_matches_inv in Hm
    as (subtype & payload & Hs & Hne & Hsemi).
  exists (String.string_of_list_ascii subtype),
         (String.string_of_list_ascii payload).
  split_and!.
  - rewrite <- (String.string_of_list_ascii_of_string s), Hs.
    unfold data_url. by rewrite !string_of_app.
  - intros Hnil. apply Hne.
    by rewrite <- (String.list_ascii_of_string_of_list_ascii subtype), Hnil.
  - by rewrite String.list_ascii_of_string_of_list_ascii.
Qed.

Lemma decode_screenshot_Ok res v :
  decode_screenshot res = Ok v →
  (∃ bs, v = PBytes bs) ∨ (∃ bs, res = PByteArray bs ∧ v = PByteArray bs).
Proof.
  unfold decode_screenshot.
  destruct res as [| | |s|bs|bs| | |]; try done.
  - destruct (String.prefix "data:image/" s); [|done].
    destruct (Re.re_match data_url_re (chars s)); [|done].
    destruct (b64decode _) as [bs|e]; [|done].
    intros [= <-]. left. by eexists.
  - intros [= <-]. left. by eexists.
  - intros [= <-]. right. by eexists.
Qed.

Lemma decode_screenshot_Err res e :
  decode_screenshot res = Err e → is_ValueError e = true.
Proof.
  unfold decode_screenshot.
  destruct res as [| | |s|bs|bs| | |]; try (by intros [= <-]).
  destruct (String.prefix "data:image/" s); [|by intros [= <-]].
  destruct (Re.re_match data_url_re (chars s)); [|by intros [= <-]].
  destruct (b64decode _) as [bs|e'] eqn:Hdec; [done|].
  intros [= <-]. by eapply b64decode_error.
Qed.

(** Whatever the remote side answers, [screenshot] returns [bytes] or a
    [bytearray] (which it does not convert), or raises a [ValueError]
    ([binascii.Error] is one); an exception of the call itself reaches
    the caller as it is. *)
Theorem screenshot_returns_bytes_or_raises page kwargs :
  (∀ res,
     (∃ bs, (exec (screenshot page kwargs) [Ok res]).2 = Returned (PBytes bs))
     ∨ (∃ bs, res = PByteArray bs
              ∧ (exec (screenshot page kwargs) [Ok res]).2
                = Returned (PByteArray bs))
     ∨ (∃ e, (exec (screenshot page kwargs) [Ok res]).2 = Raised e
             ∧ is_ValueError e = true))
  ∧ (∀ e answers,
       (exec (screenshot page kwargs) (Err e :: answers)).2 = Raised e).
Proof.
  split; [|done].
  intros res.
  assert ((exec (screenshot page kwargs) [Ok res]).2
          = outcome_of (decode_screenshot res)) as ->.
  { unfold screenshot. cbn. by destruct (decode_screenshot res). }
  destruct (decode_screenshot res) as [v|e] eqn:Hdec.
  - destruct (decode_screenshot_Ok _ _ Hdec) as [[bs ->]|(bs & -> & ->)].
    + left. by exists bs.
    + right; left. by exists bs.
  - right; right. exists e. split; [done|]. by eapply decode_screenshot_Err.
Qed.

(** The two messages of [screenshot]: a string that does not start with
    'data:image/' is an "unexpected result type", like a result that is
    no string and no binary; a string that starts with it without being
    [data:image/<subtype>;base64,<payload>] (the subtype not empty and
    without ';', so that a parameter such as ';charset=utf-8' is not
    accepted) is an "unexpected data URL format".  An empty payload is
    not an error: it decodes to no bytes. *)
Theorem screenshot_error_messages :
  (∀ s,
     String.prefix "data:image/" s = false →
     decode_screenshot (PStr s)
     = Err (ValueError "Unexpected screenshot result type"))
  ∧ (∀ s,
       String.prefix "data:image/" s = true →
       (∀ subtype payload,
          s = data_url subtype payload →
          subtype = "" ∨ ";"%char ∈ chars subtype) →
       decode_screenshot (PStr s)
       = Err (ValueError "Unexpected screenshot data URL format"))
  ∧ (∀ subtype,
       subtype ≠ "" → ";"%char ∉ chars subtype →
       decode_screenshot (PStr (data_url subtype "")) = Ok (PBytes [])).
Proof.
  split_and!.
  - intros s Hp. unfold decode_screenshot. by rewrite Hp.
  - intros s Hp Hbad. unfold decode_screenshot. rewrite Hp.
    destruct (Re.re_match data_url_re (chars s)) as [gs|] eqn:Hm; [|done].
    apply data_url_re_matches_str in Hm
      as (subtype & payload & -> & Hne & Hsemi).
    by destruct (Hbad subtype payload eq_refl).
  - intros subtype Hne Hsemi. by rewrite decode_data_url.
Qed.

Lemma screenshot_error_messages_witness :
  decode_screenshot (PStr "screenshot.png")
  = Err (ValueError "Unexpected screenshot result type")
  ∧ decode_screenshot (PStr "data:image/;base64,QUJD")
    = Err (ValueError "Unexpected screenshot data URL format")
  ∧ decode_screenshot (PStr (data_url "png" "")) = Ok (PBytes []).
Proof.
  destruct screenshot_error_messages as (Htype & Hformat & Hempty).
  split_and!.
  - apply Htype. reflexivity.
  - apply Hformat; [reflexivity|].
    intros subtype payload Heq.
    destruct subtype as [|c subtype]; [by left|right].
    injection Heq as <-. apply elem_of_cons. by left.
  - apply Hempty; [discriminate|].
    intros H. vm_compute in H.
    repeat (apply elem_of_cons in H as [H|H]; [discriminate|]).
    by apply elem_of_nil in H.
Defined.

End ScreenshotErrors.

(** ** The client id *)
Section ClientId.
#[local] Open Scope list_scope.

Lemma suffix_alphabet_lookup i :
  i < 36 → is_Some (suffix_alphabet !! i).
Proof. intros Hi. apply lookup_lt_is_Some. by vm_compute. Qed.

Lemma suffix_alphabet_NoDup : NoDup suffix_alphabet.
Proof. apply (bool_decide_unpack (NoDup suffix_alphabet)). by vm_compute. Qed.

Lemma random_suffix_cons i draws c :
  suffix_alphabet !! i = Some c →
  random_suffix (i :: draws) = c :: random_suffix draws.
Proof. intros Hc. unfold random_suffix. simpl. by rewrite Hc. Qed.

Lemma random_suffix_length draws :
  Forall (λ i, i < 36) draws → length (random_suffix draws) = length draws.
Proof.
  induction 1 as [|i draws Hi _ IH]; [done|].
  destruct (suffix_alphabet_lookup i Hi) as [c Hc].
  rewrite (random_suffix_cons _ _ _ Hc). simpl. by rewrite IH.
Qed.

Lemma random_suffix_inj draws1 draws2 :
  Forall (λ i, i < 36) draws1 → Forall (λ i, i < 36) draws2 →
  random_suffix draws1 = random_suffix draws2 → draws1 = draws2.
Proof.
  intros H1. revert draws2.
  induction H1 as [|i draws1 Hi _ IH]; intros draws2 H2.
  - destruct H2 as [|j draws2 Hj _]; [done|].
    destruct (suffix_alphabet_lookup j Hj) as [c Hc].
    by rewrite (random_suffix_cons _ _ _ Hc).
  - destruct (suffix_alphabet_lookup i Hi) as [c Hc].
    rewrite (random_suffix_cons _ _ _ Hc).
    destruct H2 as [|j draws2 Hj H2]; [done|].
    destruct (suffix_alphabet_lookup j Hj) as [d Hd].
    rewrite (random_suffix_cons _ _ _ Hd).
    intros [= <- Hrest]. f_equal; [|by apply IH].
    exact (NoDup_lookup _ _ _ _ suffix_alphabet_NoDup Hc Hd).
Qed.

(** [generate_python_client_id] writes 'python_', the timestamp in
    decimal, '_' and nine characters of [a-z0-9]; no two different pairs
    of a timestamp and a sequence of draws give the same id. *)
Theorem client_id_shape_and_injectivity :
  (∀ timestamp draws,
     length draws = 9 → Forall (λ i, i < 36) draws →
     ∃ suffix,
       generate_python_client_id timestamp draws
       = String.append "python_"
           (String.append (pretty timestamp) (String.append "_" suffix))
       ∧ length (chars suffix) = 9
       ∧ Forall (λ c, c ∈ suffix_alphabet) (chars suffix))
  ∧ (∀ timestamp1 draws1 timestamp2 draws2,
       length draws1 = 9 → Forall (λ i, i < 36) draws1 →
       length draws2 = 9 → Forall (λ i, i < 36) draws2 →
       generate_python_client_id timestamp1 draws1
       = generate_python_client_id timestamp2 draws2 →
       timestamp1 = timestamp2 ∧ draws1 = draws2).
Proof.
  split.
  - intros timestamp draws Hlen Hall.
    exists (String.string_of_list_ascii (random_suffix draws)).
    split; [done|]. rewrite String.list_ascii_of_string_of_list_ascii.
    split; [by rewrite random_suffix_length|].
    unfold random_suffix. apply Forall_forall. intros c Hc.
    apply list_elem_of_omap in Hc as (i & _ & Hi).
    by eapply list_elem_of_lookup_2.
  - intros t1 d1 t2 d2 Hl1 H1 Hl2 H2 Heq.
    unfold generate_python_client_id in Heq.
    apply (f_equal chars) in Heq. rewrite !chars_append in Heq.
    apply app_inv_head in Heq. rewrite !app_assoc in Heq.
    rewrite !String.list_ascii_of_string_of_list_ascii in Heq.
    apply app_inj_2 in Heq as [Hts Hsuffix];
      [|by rewrite !random_suffix_length, Hl1, Hl2].
    apply app_inv_tail in Hts.
    split; [|by apply random_suffix_inj].
    apply (inj pretty).
    by rewrite <- (String.string_of_list_ascii_of_string (pretty t1)), Hts,
      String.string_of_list_ascii_of_string.
Qed.

Lemma client_id_shape_and_injectivity_witness :
  generate_python_client_id 1700000000000 [0; 1; 2; 26; 27; 35; 25; 7; 8]
  = "python_1700000000000_abc019zhi"
  ∧ ∃ suffix,
      generate_python_client_id 1700000000000 [0; 1; 2; 26; 27; 35; 25; 7; 8]
      = String.append "python_"
          (String.append (pretty 1700000000000%Z) (String.append "_" suffix))
      ∧ length (chars suffix) = 9
      ∧ Forall (λ c, c ∈ suffix_alphabet) (chars suffix).
Proof.
  split; [by vm_compute|].
  apply (proj1 client_id_shape_and_injectivity); [reflexivity|].
  repeat constructor; lia.
Defined.

End ClientId.

(** ** Handles over the request manager *)
Section Driven.
Import SocketRequestManager.
#[local] Open Scope list_scope.

(** The message [emit] sends carries the id where the peer reads it. *)
Lemma sent_req_id_emit_send w r verb data :
  ∃ msg,
    last (wire (emit_send w r verb data).1) = Some msg
    ∧ sent_req_id (_browser_client_id (self w)) msg = PStr r.
Proof.
  assert (dict_merge data {[ "req_id" := PStr r ]} !! "req_id"
          = Some (PStr r)) as Hmerge.
  { unfold dict_merge. apply lookup_union_Some_l. by simplify_map_eq. }
  eexists. split; [simpl; apply last_snoc|].
  unfold sent_req_id.
  destruct (truthy (of_opt (_browser_client_id (self w)))) eqn:Htr; simpl.
  - unfold dict_get at 1. simplify_map_eq.
    unfold dict_get. rewrite lookup_insert_ne by done. by rewrite Hmerge.
  - unfold dict_get. by rewrite Hmerge.
Qed.

(** One request against the peer: the call is answered, and the entry
    it registered is gone. *)
Lemma drive_request w r verb data v :
  r ≠ "" →
  let w1 := (emit_send w r verb data).1 in
  let target := _browser_client_id (self w) in
  ∃ msg,
    last (wire w1) = Some msg
    ∧ let w2 := (_on_response w1 (reply target (sent_req_id target msg) v)).1
      in emit_result w2 (length (heap w)) = Some v
         ∧ _futures (self w2) = delete r (_futures (self w))
         ∧ _browser_client_id (self w2) = target
         ∧ length (wire w2) = S (length (wire w)).
Proof.
  intros Hne w1 target.
  destruct (sent_req_id_emit_send w r verb data) as (msg & Hlast & Hid).
  exists msg. split; [done|]. fold target in Hid. rewrite Hid.
  rewrite (on_response_registered w1 (reply target (PStr r) v) r
             (length (heap w))); [| | |done| |].
  - simpl. split_and!.
    + unfold emit_result. simpl.
      rewrite list_lookup_insert_eq; [done|].
      rewrite length_app. simpl. lia.
    + by rewrite delete_insert_eq.
    + done.
    + rewrite length_app. simpl. lia.
  - unfold reply, dict_get. simplify_map_eq. apply eq_target_of_opt.
  - unfold reply, dict_get. by simplify_map_eq.
  - simpl. apply lookup_insert_eq.
  - simpl. by rewrite lookup_app_r, Nat.sub_diag.
Qed.

(** Any coroutine of the handles, run over a request manager with no
    call pending against a peer that answers at once, ends as it does
    when each request is answered with the peer's result: it is never
    left suspended, every request of it is resolved with the result
    meant for it, and no entry stays in the pending map. *)
Theorem coroutine_over_manager {A} (p : prog A) uuid server :
  (∀ n, uuid n ≠ "") →
  ∀ w,
    _futures (self w) = ∅ →
    (drive p w uuid server).2
    = answer_with p (λ o, match o with
                          | ReqEmit _ verb data => Ok (server verb data)
                          | _ => Ok PNone
                          end)
    ∧ _futures (self (drive p w uuid server).1) = ∅
    ∧ _browser_client_id (self (drive p w uuid server).1)
      = _browser_client_id (self w).
Proof.
  intros Huuid. induction p as [a|e|o k IH]; intros w Hempty; [done..|].
  destruct o as [url auth|event data| |req verb data];
    try (cbn [drive answer_with]; by apply IH).
  destruct (drive_request w (uuid (length (heap w))) verb data
              (server verb data) (Huuid _))
    as (msg & Hlast & Hres & Hfut & Htarget & _).
  cbn [drive answer_with].
  destruct (emit_send w (uuid (length (heap w))) verb data) as [w1 fut] eqn:Hsend.
  assert (fut = length (heap w)) as -> by (by injection Hsend).
  cbn [fst] in *. rewrite Hlast, Hres.
  rewrite Hempty, delete_empty in Hfut.
  destruct (IH (Ok (server verb data)) _ Hfut) as (Hout & Hfutures & Htgt).
  split_and!; [done|done|]. by rewrite Htgt.
Qed.

Lemma coroutine_over_manager_witness :
  (drive (SocketPage.title (SocketPage.Build 0 (PStr "page-1")))
     (init (Some "T")) (λ n, String.append "id-" (pretty n))
     (λ verb data, if String.eqb verb "page_title" then PStr "Home"
                   else PNone)).2
  = Returned (PStr "Home").
Proof.
  refine (proj1 (coroutine_over_manager
                   (SocketPage.title (SocketPage.Build 0 (PStr "page-1")))
                   (λ n, String.append "id-" (pretty n)) _ _ (init (Some "T"))
                   _)).
  - intros n. discriminate.
  - reflexivity.
Defined.

End Driven.
